(** * webm-converter: the edge worker (src/worker/index.ts) and the job core

    The worker is the routing layer in front of the container that runs the
    Rust conversion server.  This development embeds

    - the JavaScript platform operations the worker relies on
      ([String.prototype.includes], [startsWith], [split], [JSON.stringify],
      the Fetch [Headers] class, [Object.fromEntries], [Promise.race] against
      a timer), in [Module JS];
    - the worker's [getHealthyContainer] and [fetch] handler, as state-passing
      code over an explicit world (the results of [crypto.randomUUID], of
      [container.fetch] and of [getRandom]), in [Section Worker];
    - the job record, registry and encoder orchestrator of the conversion
      core, in [Module Core].

    Console output is not part of the model. *)

From Stdlib Require Import ZArith Ascii String.
From stdpp Require Import gmap strings.

(* ===================================================================== *)
(** * The JavaScript platform                                             *)
(* ===================================================================== *)

Module JS.

(** ** Strings

    A JS string is modelled as a [string] of 8-bit characters. *)

(** [s.startsWith(p)] *)
Fixpoint startsWith (s p : string) {struct p} : bool :=
  match p with
  | EmptyString => true
  | String a p' =>
      match s with
      | EmptyString => false
      | String b s' => Ascii.eqb a b && startsWith s' p'
      end
  end.

(** [s.includes(sub)]: [sub] occurs at some index of [s]. *)
Fixpoint includes (s sub : string) {struct s} : bool :=
  startsWith s sub ||
  match s with
  | EmptyString => false
  | String _ s' => includes s' sub
  end.

(** [s.split(sep)] for a non-empty separator: the pieces between the
    successive non-overlapping occurrences of [sep], scanning from the left.
    [skip] counts the characters of a matched separator still to be dropped,
    [cur] is the piece being accumulated. *)
Fixpoint split_go (sep : string) (skip : nat) (cur : string) (s : string)
  : list string :=
  match s with
  | EmptyString => [cur]
  | String c s' =>
      match skip with
      | S k => split_go sep k cur s'
      | O =>
          if startsWith s sep
          then cur :: split_go sep (String.length sep - 1) EmptyString s'
          else split_go sep 0 (cur +:+ String c EmptyString) s'
      end
  end.

Definition split (s sep : string) : list string := split_go sep 0 EmptyString s.

(** ASCII lower-casing, as the Fetch standard's byte-lowercase. *)
Definition lower_ascii (c : ascii) : ascii :=
  let n := nat_of_ascii c in
  if (65 <=? n) && (n <=? 90) then ascii_of_nat (n + 32) else c.

Fixpoint toLowerCase (s : string) : string :=
  match s with
  | EmptyString => EmptyString
  | String c s' => String (lower_ascii c) (toLowerCase s')
  end.

(** ** JSON.stringify

    The values the worker serialises are strings, arrays of strings and
    objects with string or array members. *)

#[warnings="-register-all"]
Inductive Json :=
  | JString (s : string)
  | JArray (items : list Json)
  | JObject (members : list (string * Json)).

Definition dquote : ascii := "034"%char.

(** The text [s] between two double quotes. *)
Definition quoted (s : string) : string :=
  String dquote (s +:+ String dquote EmptyString).

Definition hex_digit (n : nat) : ascii :=
  nth n (list_ascii_of_string "0123456789abcdef") "0"%char.

(** One character of QuoteJSONString: the quote and the backslash are
    escaped, the control characters get their short escape or [\u00hh]. *)
Definition escape_char (c : ascii) : string :=
  let n := nat_of_ascii c in
  if n =? 34 then String "\" (String dquote EmptyString)
  else if n =? 92 then "\\"
  else if n =? 8 then "\b"
  else if n =? 12 then "\f"
  else if n =? 10 then "\n"
  else if n =? 13 then "\r"
  else if n =? 9 then "\t"
  else if n <? 32 then
    "\u00" +:+ String (hex_digit (n / 16)) (String (hex_digit (n mod 16)) EmptyString)
  else String c EmptyString.

Fixpoint escape (s : string) : string :=
  match s with
  | EmptyString => EmptyString
  | String c s' => escape_char c +:+ escape s'
  end.

Definition quote (s : string) : string :=
  String dquote (escape s +:+ String dquote EmptyString).

Fixpoint stringify (j : Json) : string :=
  match j with
  | JString s => quote s
  | JArray items => "[" +:+ String.concat "," (map stringify items) +:+ "]"
  | JObject members =>
      "{" +:+
      String.concat ","
        (map (fun kv => quote (fst kv) +:+ ":" +:+ stringify (snd kv)) members)
      +:+ "}"
  end.

(** ** The Fetch [Headers] class

    A header list keeps the (name, value) pairs in the order they were
    appended, names as given.  Names are compared byte-case-insensitively. *)

Definition Headers := list (string * string).

Definition same_name (a b : string) : bool :=
  String.eqb (toLowerCase a) (toLowerCase b).

(** The values stored under a name, in append order. *)
Definition values (h : Headers) (name : string) : list string :=
  map snd (List.filter (fun kv => same_name (fst kv) name) h).

(** [h.get(name)]: the values of that name combined with a comma and a
    space, [null] when there is none. *)
Definition get (h : Headers) (name : string) : option string :=
  match values h name with
  | [] => None
  | vs => Some (String.concat ", " vs)
  end.

(** HTTP whitespace: tab, line feed, carriage return, space. *)
Definition is_http_whitespace (c : ascii) : bool :=
  let n := nat_of_ascii c in
  (n =? 9) || (n =? 10) || (n =? 13) || (n =? 32).

Fixpoint strip_leading (s : string) : string :=
  match s with
  | EmptyString => EmptyString
  | String c s' => if is_http_whitespace c then strip_leading s' else s
  end.

Fixpoint strip_trailing (s : string) : string :=
  match s with
  | EmptyString => EmptyString
  | String c s' =>
      match strip_trailing s' with
      | EmptyString =>
          if is_http_whitespace c then EmptyString else String c EmptyString
      | t => String c t
      end
  end.

(** Normalizing a header value: the leading and the trailing HTTP
    whitespace is removed. *)
Definition normalize (value : string) : string :=
  strip_trailing (strip_leading value).

(** [h.append(name, value)]: the value is normalized, then the pair is put
    at the end of the list.  The runtime of the worker applies no guard to
    the names a request may carry (the names a browser refuses to set are
    appended like the others). *)
Definition append (h : Headers) (name value : string) : Headers :=
  h ++ [(name, normalize value)].

(** The header names a browser refuses to set on a request, by the Fetch
    standard; the facts about forwarded headers are stated for the other
    names, where both readings of [append] agree. *)
Definition browser_guarded_name (name : string) : bool :=
  let n := toLowerCase name in
  existsb (String.eqb n)
    ["accept-charset"; "accept-encoding"; "access-control-request-headers";
     "access-control-request-method"; "connection"; "content-length";
     "cookie"; "cookie2"; "date"; "dnt"; "expect"; "host"; "keep-alive";
     "origin"; "referer"; "set-cookie"; "te"; "trailer";
     "transfer-encoding"; "upgrade"; "via"; "x-http-method";
     "x-http-method-override"; "x-method-override"]
  || startsWith n "proxy-" || startsWith n "sec-".

Fixpoint insert_sorted (n : string) (l : list string) : list string :=
  match l with
  | [] => [n]
  | m :: l' =>
      if String.eqb n m then l
      else if String.ltb n m then n :: l
      else m :: insert_sorted n l'
  end.

(** The lower-cased names of a header list, sorted, without repetition. *)
Definition sorted_names (h : Headers) : list string :=
  fold_right (fun kv acc => insert_sorted (toLowerCase (fst kv)) acc) [] h.

(** The pairs one lower-cased name contributes to the iteration: the
    combined value, except for [set-cookie], whose values are yielded one
    by one. *)
Definition entries_of (h : Headers) (n : string) : list (string * string) :=
  if String.eqb n "set-cookie"
  then map (fun v => (n, v)) (values h n)
  else match get h n with
       | Some v => [(n, v)]
       | None => []
       end.

(** Iterating a [Headers] object (sort and combine): the pairs of the
    lower-cased names in ascending order. *)
Definition entries (h : Headers) : list (string * string) :=
  flat_map (entries_of h) (sorted_names h).

(** ** Plain objects with string values

    The own properties in insertion order.  (Property names that are array
    indices are enumerated first by JS; a header list built from the object
    is insensitive to that, only same-name pairs are order-sensitive.) *)

Definition Obj := list (string * string).

(** [o[k] = v]: an existing property keeps its place. *)
Fixpoint obj_set (o : Obj) (k v : string) : Obj :=
  match o with
  | [] => [(k, v)]
  | (k', v') :: o' =>
      if String.eqb k' k then (k', v) :: o' else (k', v') :: obj_set o' k v
  end.

(** [o[k]] *)
Fixpoint obj_get (o : Obj) (k : string) : option string :=
  match o with
  | [] => None
  | (k', v') :: o' => if String.eqb k' k then Some v' else obj_get o' k
  end.

(** The value of the last pair with key [k] in a list of pairs. *)
Definition assoc_last (es : list (string * string)) (k : string)
  : option string :=
  fold_left (fun acc kv => if String.eqb (fst kv) k then Some (snd kv) else acc)
    es None.

(** [Object.fromEntries(iterable)] *)
Definition fromEntries (es : list (string * string)) : Obj :=
  fold_left (fun o kv => obj_set o (fst kv) (snd kv)) es [].

(** [new Headers(obj)]: every property is appended. *)
Definition headers_of_obj (o : Obj) : Headers :=
  fold_left (fun h kv => append h (fst kv) (snd kv)) o [].

End JS.

(* ===================================================================== *)
(** * The worker (src/worker/index.ts)                                    *)
(* ===================================================================== *)

Module Worker.

(** A value carried by [throw] or by a promise rejection: an [Error] object
    with its [name] and [message], or any other value, given by its string
    conversion. *)
Inductive Thrown :=
  | ErrorObj (name message : string)
  | NonError (text : string).

(** [new Error(message)] *)
Definition newError (message : string) : Thrown := ErrorObj "Error" message.

(** [String(error)]; for an [Error] object this is Error.prototype.toString. *)
Definition String_of (e : Thrown) : string :=
  match e with
  | ErrorObj name message =>
      if String.eqb name EmptyString then message
      else if String.eqb message EmptyString then name
      else name +:+ ": " +:+ message
  | NonError text => text
  end.

Inductive Res (A : Type) :=
  | Ok (a : A)
  | Throw (e : Thrown).
Arguments Ok {A} a.
Arguments Throw {A} e.

Record Request := mkRequest {
  url : string;
  method : string;
  headers : JS.Headers;
  body : string
}.

Record Response := mkResponse {
  status : Z;
  resp_headers : JS.Headers;
  resp_body : string
}.

(** [response.ok] *)
Definition ok (r : Response) : bool :=
  (200 <=? status r)%Z && (status r <=? 299)%Z.

(** How the promise returned by one [container.fetch(...)] call settles,
    with the time in milliseconds after the call; [Pending] never settles. *)
Inductive Settle :=
  | Resolves (at_ms : Z) (r : Response)
  | Rejects (at_ms : Z) (e : Thrown)
  | Pending.

(** Whether a promise settling at [t] wins against a timer of [limit] ms
    started at the same moment; [tie] decides the case of equal times. *)
Definition settles_before (tie : bool) (t limit : Z) : bool :=
  (t <? limit)%Z || ((t =? limit)%Z && tie).

(** [await Promise.race([p, new Promise((_, reject) =>
       setTimeout(() => reject(new Error(label)), limit))])] *)
Definition race (tie : bool) (p : Settle) (limit : Z) (label : string)
  : Res Response :=
  match p with
  | Resolves t r =>
      if settles_before tie t limit then Ok r else Throw (newError label)
  | Rejects t e =>
      if settles_before tie t limit then Throw e else Throw (newError label)
  | Pending => Throw (newError label)
  end.

(** [new Response(JSON.stringify(j), { status, headers:
    { 'Content-Type': 'application/json' } })] *)
Definition json_response (st : Z) (j : JS.Json) : Response :=
  mkResponse st [("Content-Type", "application/json")] (JS.stringify j).

(** [new Request('http://container/health')] *)
Definition health_request : Request :=
  mkRequest "http://container/health" "GET" [] EmptyString.

(** [url.pathname.split(sep)[1]]; [None] is [undefined]. *)
Definition path_segment (pathname sep : string) : option string :=
  JS.split pathname sep !! 1%nat.

Section Worker.

(** The container stubs, the library function that hands out the stub of
    a name ([getContainer(env.WEBM_CONVERTER, name)] of
    @cloudflare/containers; [None] is an [undefined] name), and the
    platform's [new URL(u).pathname].  [getContainer] and the [Request]
    constructor are taken not to throw. *)
Variable Container : Type.
Variable getContainer : option string -> Container.
Variable URL_pathname : string -> string.

(** The world a handler runs in: the result of the n-th call of
    [crypto.randomUUID()], the fate of the n-th [container.fetch(...)]
    promise, the result of the n-th [getRandom(env.WEBM_CONVERTER)], and the
    outcome of a tie between a fetch and its timer. *)
Record World := mkWorld {
  randomUUID : nat -> string;
  containerFetch : nat -> Settle;
  getRandom : nat -> Res Container;
  fetch_wins_tie : bool
}.

Variable w : World.

(** What a handler does to the outside, in order. [EvFetch c req limit] is
    [container.fetch(req)] on stub [c], raced against a timer of [limit]. *)
Inductive Event :=
  | EvRandomUUID (id : string)
  | EvGetContainer (name : option string)
  | EvGetRandom
  | EvFetch (c : Container) (req : Request) (limit : Z)
  | EvSleep (ms : Z).

Record St := mkSt {
  uuid_calls : nat;
  fetch_calls : nat;
  random_calls : nat;
  trace : list Event
}.

Definition emit (ev : Event) (s : St) : St :=
  mkSt (uuid_calls s) (fetch_calls s) (random_calls s) (trace s ++ [ev]).

(** State and exceptions. *)
Definition M (A : Type) : Type := St -> Res A * St.

#[export] Instance M_ret : MRet M := fun A a s => (Ok a, s).
#[export] Instance M_bind : MBind M := fun A B f m s =>
  match m s with
  | (Ok a, s') => f a s'
  | (Throw e, s') => (Throw e, s')
  end.

Definition throw {A} (e : Thrown) : M A := fun s => (Throw e, s).

(** [try { m } catch (error) { h error }] *)
Definition try_catch {A} (m : M A) (h : Thrown -> M A) : M A := fun s =>
  match m s with
  | (Ok a, s') => (Ok a, s')
  | (Throw e, s') => h e s'
  end.

Definition crypto_randomUUID : M string := fun s =>
  let id := randomUUID w (uuid_calls s) in
  (Ok id,
   emit (EvRandomUUID id)
     (mkSt (S (uuid_calls s)) (fetch_calls s) (random_calls s) (trace s))).

Definition get_container (name : option string) : M Container := fun s =>
  (Ok (getContainer name), emit (EvGetContainer name) s).

Definition get_random : M Container := fun s =>
  (getRandom w (random_calls s),
   emit EvGetRandom
     (mkSt (uuid_calls s) (fetch_calls s) (S (random_calls s)) (trace s))).

Definition fetch_race (c : Container) (req : Request) (limit : Z)
    (label : string) : M Response := fun s =>
  (race (fetch_wins_tie w) (containerFetch w (fetch_calls s)) limit label,
   emit (EvFetch c req limit)
     (mkSt (uuid_calls s) (S (fetch_calls s)) (random_calls s) (trace s))).

Definition sleep (ms : Z) : M unit := fun s => (Ok tt, emit (EvSleep ms) s).

(** ** getHealthyContainer

    The [for] loop, by the number of iterations left; the attempt number is
    [maxRetries - remaining]. *)
Fixpoint getHealthyContainer_loop (maxRetries remaining : nat)
  : M Container :=
  match remaining with
  | O => throw (newError "No healthy container available")
  | S remaining' =>
      let attempt := (maxRetries - remaining)%nat in
      found ← try_catch
        (container ← get_random;
         healthCheck ←
           fetch_race container health_request 2000 "Health check timeout";
         mret (if ok healthCheck then Some container else None))
        (fun e =>
           _ ← (if (attempt <? maxRetries - 1)%nat
                then sleep 1000 else mret tt);
           mret None);
      match found with
      | Some container => mret container
      | None => getHealthyContainer_loop maxRetries remaining'
      end
  end.

Definition getHealthyContainer (maxRetries : nat) : M Container :=
  getHealthyContainer_loop maxRetries maxRetries.

(** The state after the pause of the [catch] block of attempt [attempt]. *)
Definition paused (maxRetries attempt : nat) (s : St) : St :=
  if (attempt <? maxRetries - 1)%nat then emit (EvSleep 1000) s else s.

(** The events of the health-check loop: a random pick, a probe raced
    against 2 s, a pause of 1 s. *)
Definition probe_event (ev : Event) : Prop :=
  ev = EvGetRandom \/
  (exists c, ev = EvFetch c health_request 2000) \/
  ev = EvSleep 1000.

Definition is_sleep (ev : Event) : bool :=
  match ev with
  | EvSleep _ => true
  | _ => false
  end.

Definition sleeps (evs : list Event) : nat :=
  length (List.filter is_sleep evs).

(** The longest an event can keep the caller waiting, in milliseconds: a
    race ends when its timer fires at the latest, a pause lasts its length. *)
Definition wait_of (ev : Event) : Z :=
  match ev with
  | EvFetch _ _ limit => limit
  | EvSleep ms => ms
  | _ => 0%Z
  end.

Definition waited (evs : list Event) : Z :=
  fold_right (fun ev acc => (wait_of ev + acc)%Z) 0%Z evs.

(** What the loop, entered with [remaining] iterations left in state [s],
    has done when it ends with result and state [rs]. *)
Definition healthy_outcome (remaining : nat) (s : St)
    (rs : Res Container * St) : Prop :=
  exists evs,
    trace (snd rs) = trace s ++ evs /\
    Forall probe_event evs /\
    (sleeps evs <= remaining - 1)%nat /\
    uuid_calls (snd rs) = uuid_calls s /\
    match fst rs with
    | Ok container =>
        (random_calls s < random_calls (snd rs) <= random_calls s + remaining)%nat /\
        getRandom w (random_calls (snd rs) - 1) = Ok container /\
        exists pre n t healthCheck,
          evs = pre ++ [EvGetRandom; EvFetch container health_request 2000] /\
          fetch_calls (snd rs) = S n /\
          containerFetch w n = Resolves t healthCheck /\
          (t <= 2000)%Z /\ ok healthCheck = true
    | Throw e =>
        e = newError "No healthy container available" /\
        random_calls (snd rs) = (random_calls s + remaining)%nat
    end.

(** The state after a pick, and after a pick and the probe of the
    container picked. *)
Definition picked (s : St) : St :=
  mkSt (uuid_calls s) (fetch_calls s) (S (random_calls s))
    (trace s ++ [EvGetRandom]).

Definition probed (s : St) (container : Container) : St :=
  mkSt (uuid_calls s) (S (fetch_calls s)) (S (random_calls s))
    (trace s ++ [EvGetRandom; EvFetch container health_request 2000]).

(** "Up to [maxRetries] attempts, each a random pick probed against a 2 s
    timer; a pause of 1 s only after an attempt that threw and is not the
    last; only a container whose probe was answered ok in time is returned;
    after the last failed attempt the error is thrown": the runs of the
    loop from attempt number [attempt] in state [s], with their result and
    final state. *)
Inductive health_check_run (maxRetries : nat)
  : nat -> St -> Res Container * St -> Prop :=
  | run_exhausted attempt s :
      (maxRetries <= attempt)%nat ->
      health_check_run maxRetries attempt s
        (Throw (newError "No healthy container available"), s)
  | run_healthy attempt s container t healthCheck :
      (attempt < maxRetries)%nat ->
      getRandom w (random_calls s) = Ok container ->
      containerFetch w (fetch_calls s) = Resolves t healthCheck ->
      (t <= 2000)%Z ->
      ok healthCheck = true ->
      race (fetch_wins_tie w) (Resolves t healthCheck) 2000
        "Health check timeout" = Ok healthCheck ->
      health_check_run maxRetries attempt s (Ok container, probed s container)
  | run_not_ok attempt s container t healthCheck rs :
      (attempt < maxRetries)%nat ->
      getRandom w (random_calls s) = Ok container ->
      containerFetch w (fetch_calls s) = Resolves t healthCheck ->
      (t <= 2000)%Z ->
      ok healthCheck = false ->
      race (fetch_wins_tie w) (Resolves t healthCheck) 2000
        "Health check timeout" = Ok healthCheck ->
      health_check_run maxRetries (S attempt) (probed s container) rs ->
      health_check_run maxRetries attempt s rs
  | run_probe_threw_paused attempt s container e rs :
      (S attempt < maxRetries)%nat ->
      getRandom w (random_calls s) = Ok container ->
      race (fetch_wins_tie w) (containerFetch w (fetch_calls s)) 2000
        "Health check timeout" = Throw e ->
      health_check_run maxRetries (S attempt)
        (emit (EvSleep 1000) (probed s container)) rs ->
      health_check_run maxRetries attempt s rs
  | run_probe_threw_last attempt s container e rs :
      S attempt = maxRetries ->
      getRandom w (random_calls s) = Ok container ->
      race (fetch_wins_tie w) (containerFetch w (fetch_calls s)) 2000
        "Health check timeout" = Throw e ->
      health_check_run maxRetries (S attempt) (probed s container) rs ->
      health_check_run maxRetries attempt s rs
  | run_pick_threw_paused attempt s e rs :
      (S attempt < maxRetries)%nat ->
      getRandom w (random_calls s) = Throw e ->
      health_check_run maxRetries (S attempt)
        (emit (EvSleep 1000) (picked s)) rs ->
      health_check_run maxRetries attempt s rs
  | run_pick_threw_last attempt s e rs :
      S attempt = maxRetries ->
      getRandom w (random_calls s) = Throw e ->
      health_check_run maxRetries (S attempt) (picked s) rs ->
      health_check_run maxRetries attempt s rs.

(** ** fetch *)

(** The request the upload route builds: same URL, method and body, the
    headers rebuilt from an object holding the iterated entries plus
    ['X-Job-Id']. *)
Definition clonedRequest (request : Request) (jobId : string) : Request :=
  mkRequest (url request) (method request)
    (JS.headers_of_obj
       (JS.obj_set (JS.fromEntries (JS.entries (headers request)))
          "X-Job-Id" jobId))
    (body request).

(** [error instanceof Error ? error.message : String(error)] *)
Definition errorMessage_of (error : Thrown) : string :=
  match error with
  | ErrorObj _ message => message
  | NonError _ => String_of error
  end.

Definition upload_error_response (error : Thrown) : Response :=
  let errorMessage := errorMessage_of error in
  let isTimeout := JS.includes errorMessage "timeout" in
  json_response (if isTimeout then 504 else 500)
    (JS.JObject
       [("error", JS.JString (if isTimeout
                              then "Upload timeout - file too large"
                              else "Upload failed"));
        ("details", JS.JString errorMessage)]).

Definition not_found_response : Response :=
  json_response 404
    (JS.JObject
       [("error", JS.JString "Not found");
        ("available_endpoints",
         JS.JArray [JS.JString "POST /upload";
                    JS.JString "GET /status/{job_id}";
                    JS.JString "GET /download/{job_id}"])]).

Definition fetch (request : Request) : M Response :=
  let pathname := URL_pathname (url request) in
  if String.eqb pathname "/health" then
    mret (json_response 200 (JS.JObject [("status", JS.JString "ok")]))
  else if String.eqb pathname "/upload" && String.eqb (method request) "POST"
  then
    try_catch
      (jobId ← crypto_randomUUID;
       container ← get_container (Some jobId);
       fetch_race container (clonedRequest request jobId) 25000
         "Upload timeout")
      (fun error => mret (upload_error_response error))
  else if JS.startsWith pathname "/status/"
          && String.eqb (method request) "GET"
  then
    try_catch
      (let jobId := path_segment pathname "/status/" in
       container ← get_container jobId;
       fetch_race container request 5000 "Status check timeout")
      (fun error =>
         mret (json_response 500
                 (JS.JObject
                    [("error", JS.JString "Failed to check status");
                     ("details", JS.JString (String_of error))])))
  else if JS.startsWith pathname "/download/"
          && String.eqb (method request) "GET"
  then
    try_catch
      (let jobId := path_segment pathname "/download/" in
       container ← get_container jobId;
       fetch_race container request 30000 "Download timeout")
      (fun error =>
         mret (json_response 500
                 (JS.JObject
                    [("error", JS.JString "Failed to download video");
                     ("details", JS.JString (String_of error))])))
  else mret not_found_response.

(** ** Successive invocations

    The upload route draws its id and starts the container fetch in its
    first synchronous segment, before the first [await]; invocations that
    overlap in time therefore perform these effects in the order in which
    they start.  [serve] takes the requests in that order and gives, for
    each, the handler's result and the events of that invocation. *)
Definition forget_trace (s : St) : St :=
  mkSt (uuid_calls s) (fetch_calls s) (random_calls s) [].

Fixpoint serve (requests : list Request) (s : St)
  : list (Res Response * list Event) :=
  match requests with
  | [] => []
  | request :: rest =>
      let rs := fetch request (forget_trace s) in
      (fst rs, trace (snd rs)) :: serve rest (snd rs)
  end.

(** The state an invocation leaves behind after one container call, having
    drawn [uuids] ids and performed the events [evs]. *)
Definition after_call (s : St) (uuids : nat) (evs : list Event) : St :=
  mkSt (uuids + uuid_calls s) (S (fetch_calls s)) (random_calls s)
    (trace s ++ evs).

(** The id an invocation drew from [crypto.randomUUID], if it drew one. *)
Fixpoint generated_job_id (tr : list Event) : option string :=
  match tr with
  | [] => None
  | EvRandomUUID id :: _ => Some id
  | _ :: tr' => generated_job_id tr'
  end.

(** The stub an invocation forwarded a request to, if it did. *)
Fixpoint routed_to (tr : list Event) : option Container :=
  match tr with
  | [] => None
  | EvFetch c _ _ :: _ => Some c
  | _ :: tr' => routed_to tr'
  end.

(** The request an invocation forwarded, if it did. *)
Fixpoint forwarded (tr : list Event) : option Request :=
  match tr with
  | [] => None
  | EvFetch _ req _ :: _ => Some req
  | _ :: tr' => forwarded tr'
  end.

Definition is_upload (request : Request) : bool :=
  negb (String.eqb (URL_pathname (url request)) "/health")
  && String.eqb (URL_pathname (url request)) "/upload"
  && String.eqb (method request) "POST".

Definition is_status (request : Request) : bool :=
  negb (String.eqb (URL_pathname (url request)) "/health")
  && negb (String.eqb (URL_pathname (url request)) "/upload"
           && String.eqb (method request) "POST")
  && JS.startsWith (URL_pathname (url request)) "/status/"
  && String.eqb (method request) "GET".

Definition is_download (request : Request) : bool :=
  negb (String.eqb (URL_pathname (url request)) "/health")
  && negb (String.eqb (URL_pathname (url request)) "/upload"
           && String.eqb (method request) "POST")
  && negb (JS.startsWith (URL_pathname (url request)) "/status/"
           && String.eqb (method request) "GET")
  && JS.startsWith (URL_pathname (url request)) "/download/"
  && String.eqb (method request) "GET".

Definition count_uploads (requests : list Request) : nat :=
  length (List.filter is_upload requests).

(** A promise that has not settled when a timer of [limit] ms fires. *)
Definition settles_after (limit : Z) (p : Settle) : Prop :=
  match p with
  | Resolves t _ | Rejects t _ => (limit < t)%Z
  | Pending => True
  end.

(** The container's response, if it arrives before [limit]. *)
Definition answered_within (limit : Z) (p : Settle) : option Response :=
  match p with
  | Resolves t r => if (t <? limit)%Z then Some r else None
  | Rejects _ _ | Pending => None
  end.

(** "The container's response if it responds within 25 seconds, a 504
    otherwise", for the invocation on [request] from state [s]. *)
Definition response_or_504 (request : Request) (s : St) : Prop :=
  match answered_within 25000 (containerFetch w (fetch_calls s)) with
  | Some r => fst (fetch request s) = Ok r
  | None =>
      exists response,
        fst (fetch request s) = Ok response /\ status response = 504%Z
  end.

(** "The invocation answers 404." *)
Definition answers_404 (request : Request) (s : St) : Prop :=
  exists response,
    fst (fetch request s) = Ok response /\ status response = 404%Z.

(** A trace in which every request sent to a container other than the
    health probe itself comes after a health probe of that container. *)
Definition probed_before_routing (tr : list Event) : Prop :=
  forall (i : nat) c req limit,
    tr !! i = Some (EvFetch c req limit) ->
    req <> health_request ->
    exists (j : nat) limit', (j < i)%nat /\
      tr !! j = Some (EvFetch c health_request limit').

End Worker.

Arguments EvRandomUUID {Container} id.
Arguments EvGetContainer {Container} name.
Arguments EvGetRandom {Container}.
Arguments EvFetch {Container} c req limit.
Arguments EvSleep {Container} ms.
Arguments mkSt {Container} _ _ _ _.
Arguments uuid_calls {Container} s.
Arguments fetch_calls {Container} s.
Arguments random_calls {Container} s.
Arguments trace {Container} s.
Arguments mkWorld {Container} _ _ _ _.
Arguments randomUUID {Container} w _.
Arguments containerFetch {Container} w _.
Arguments getRandom {Container} w _.
Arguments fetch_wins_tie {Container} w.
Arguments getHealthyContainer_loop {Container} w maxRetries remaining _.
Arguments getHealthyContainer {Container} w maxRetries _.
Arguments probe_event {Container} ev.
Arguments is_sleep {Container} ev.
Arguments sleeps {Container} evs.
Arguments emit {Container} ev s.
Arguments wait_of {Container} ev.
Arguments waited {Container} evs.
Arguments healthy_outcome {Container} w remaining s rs.
Arguments picked {Container} s.
Arguments probed {Container} s container.
Arguments health_check_run {Container} w maxRetries _ _ _.
Arguments paused {Container} maxRetries attempt s.
Arguments fetch {Container} getContainer URL_pathname w request _.
Arguments serve {Container} getContainer URL_pathname w requests s.
Arguments after_call {Container} s uuids evs.
Arguments forget_trace {Container} s.
Arguments generated_job_id {Container} tr.
Arguments routed_to {Container} tr.
Arguments forwarded {Container} tr.
Arguments probed_before_routing {Container} tr.
Arguments response_or_504 {Container} getContainer URL_pathname w request s.
Arguments answers_404 {Container} getContainer URL_pathname w request s.

(** ** Concrete instances, for evaluation *)

(** A stand-in for [new URL(u).pathname] on URLs of the form
    scheme://host/path: the text from the third slash on. *)
Fixpoint path_from (slashes : nat) (u : string) : string :=
  match u with
  | EmptyString => "/"
  | String c u' =>
      if Ascii.eqb c "/"
      then match slashes with
           | O => u
           | S k => path_from k u'
           end
      else path_from slashes u'
  end.

Definition demo_pathname (u : string) : string := path_from 2 u.

(** Stubs identified by the name they were asked for; the default name of
    the library stands for [undefined]. *)
Definition demo_getContainer (name : option string) : string :=
  default "cf-singleton-container" name.

Definition initial : St string := mkSt 0 0 0 [].

Definition demo_uuid (n : nat) : string :=
  nth n ["0b5e1c1e-0000-4000-8000-000000000001";
         "0b5e1c1e-0000-4000-8000-000000000002"]
    "0b5e1c1e-0000-4000-8000-00000000ffff".

Definition demo_upload : Request :=
  mkRequest "https://w.dev/upload" "POST"
    [("Content-Type", "video/mp4"); ("Accept", "*/*")] "bytes".

Definition demo_upload_with_id : Request :=
  mkRequest "https://w.dev/upload" "POST"
    [("Content-Type", "video/mp4"); ("X-Job-Id", "evil")] "bytes".

Definition demo_status : Request :=
  mkRequest "https://w.dev/status/0b5e1c1e-0000-4000-8000-000000000001"
    "GET" [] EmptyString.

Definition demo_download : Request :=
  mkRequest "https://w.dev/download/0b5e1c1e-0000-4000-8000-000000000001"
    "GET" [] EmptyString.

Definition demo_health : Request :=
  mkRequest "https://w.dev/health" "GET" [] EmptyString.

Definition accepted : Response :=
  mkResponse 200 [("content-type", "application/json")] "accepted".

Definition not_found_404 : Response :=
  mkResponse 404 [("content-type", "application/json")] "unknown job".

(** Worlds: the container answers after 120 ms; it never answers; its
    fetch is rejected at once; it answers 404 after 120 ms. *)
Definition world_of (fate : Settle) : World string :=
  mkWorld demo_uuid (fun _ => fate)
    (fun n => Ok (nth n ["instance-0"; "instance-1"] "instance-2")) true.

Definition prompt_world := world_of (Resolves 120 accepted).
Definition silent_world := world_of Pending.
Definition refused_world :=
  world_of (Rejects 3 (ErrorObj "Error" "Network connection lost.")).
Definition unknown_job_world := world_of (Resolves 120 not_found_404).

End Worker.

(* ===================================================================== *)
(** * The conversion core (the Rust server behind the worker)             *)
(* ===================================================================== *)

Module Core.

(** Modelled from the spec: the status of a job (section 3); the server
    that holds the jobs is not among the sources at hand. *)
Inductive Status := Processing | Complete | Failed.

(** Modelled from the spec: [Complete] and [Failed] are the terminal
    states. *)
Definition terminal (s : Status) : bool :=
  match s with
  | Processing => false
  | Complete | Failed => true
  end.

(** Modelled from the spec: the conversion parameters captured at
    creation (section 3). *)
Record Options := mkOptions {
  quality : Z;
  audio_bitrate : string;
  detect_green : bool
}.

(** Modelled from the spec: the Job record of the server (section 3). *)
Record Job := mkJob {
  id : string;
  status : Status;
  progress : Z;
  options : Options;
  input_path : string;
  output_path : option string;
  detected_color : option string;
  error : option string;
  created_at : Z
}.

(** ** Job registry (section 4.1) *)

(** Modelled from the spec: [create] inserts a [Processing] record with
    progress 0 under a fresh id; an id already issued keeps its Job. *)
Definition create (i : string) (opts : Options) (input : string) (now : Z)
    (reg : gmap string Job) : gmap string Job :=
  match reg !! i with
  | Some _ => reg
  | None => <[i := mkJob i Processing 0 opts input None None None now]> reg
  end.

(** Modelled from the spec: [get(id) -> Job snapshot | NotFound]. *)
Definition get (i : string) (reg : gmap string Job) : option Job := reg !! i.

(** Modelled from the spec: [update(id, mutator)]. *)
Definition update (i : string) (mutator : Job -> Job)
    (reg : gmap string Job) : gmap string Job :=
  alter mutator i reg.

(** Modelled from the spec: [remove(id)]. *)
Definition remove (i : string) (reg : gmap string Job) : gmap string Job :=
  delete i reg.

(** ** Encoder orchestrator (section 4.3) *)

(** Modelled from the spec:
    [progress = min(99, floor(100 * processed_duration / total_duration))].
    Durations are counted in whole time units of the encoder's status
    lines; [Z.div] rounds down. *)
Definition parsed_progress (processed total : Z) : Z :=
  Z.min 99 (100 * processed / total).

(** Modelled from the spec: what the owning task receives (sections 4.3
    and 4.4): a status line of the encoder with the processed duration, the
    colour sampler's result, or the exit of the subprocess with its code,
    the size of the output artifact and the text of its diagnostic stream. *)
Inductive EncoderEvent :=
  | StatusLine (processed : Z)
  | Sampled (color : option string)
  | Exited (code : Z) (output_bytes : Z) (diagnostic : string).

(** Modelled from the spec: the parser's mutation, progress only. *)
Definition set_progress (p : Z) (j : Job) : Job :=
  mkJob (id j) (status j) p (options j) (input_path j) (output_path j)
    (detected_color j) (error j) (created_at j).

(** Modelled from the spec: the sampler's mutation, [detected_color]
    only. *)
Definition set_color (c : string) (j : Job) : Job :=
  mkJob (id j) (status j) (progress j) (options j) (input_path j)
    (output_path j) (Some c) (error j) (created_at j).

(** Modelled from the spec: success marks [Complete], attaches the output
    path and sets progress 100 in one mutation. *)
Definition mark_complete (out : string) (j : Job) : Job :=
  mkJob (id j) Complete 100 (options j) (input_path j) (Some out)
    (detected_color j) (error j) (created_at j).

(** Modelled from the spec: failure marks [Failed] with the diagnostic
    text truncated to a bounded length. *)
Definition mark_failed (bound : nat) (diagnostic : string) (j : Job) : Job :=
  mkJob (id j) Failed (progress j) (options j) (input_path j) (output_path j)
    (detected_color j) (Some (String.substring 0 bound diagnostic))
    (created_at j).

(** Modelled from the spec: the mutation the task publishes for one event.
    Exit code 0 with a non-empty output artifact is success, any other exit
    is failure; a failed colour sampling leaves the job as it is. *)
Definition publish (bound : nat) (total : Z) (out : string)
    (ev : EncoderEvent) (j : Job) : Job :=
  match ev with
  | StatusLine processed => set_progress (parsed_progress processed total) j
  | Sampled (Some c) => set_color c j
  | Sampled None => j
  | Exited code output_bytes diagnostic =>
      if (code =? 0)%Z && (0 <? output_bytes)%Z
      then mark_complete out j
      else mark_failed bound diagnostic j
  end.

(** Modelled from the spec: the task consumes the encoder's output as a
    sequence and publishes each derived state; a single encoder invocation
    is authoritative, the task ends with the exit of the subprocess.  The
    result lists the successive snapshots of the job. *)
Fixpoint task_snapshots (bound : nat) (total : Z) (out : string)
    (evs : list EncoderEvent) (j : Job) : list Job :=
  match evs with
  | [] => []
  | ev :: rest =>
      let j' := publish bound total out ev j in
      j' :: match ev with
            | Exited _ _ _ => []
            | _ => task_snapshots bound total out rest j'
            end
  end.

(** Modelled from the spec: the result of probing the input's total
    duration. *)
Inductive Probe :=
  | ProbeFailed (diagnostic : string)
  | Probed (total : Z).

(** Modelled from the spec: the orchestrator first probes the total
    duration (a probe failure fails the job), then follows the encoder. *)
Definition orchestrate (bound : nat) (probe : Probe) (out : string)
    (evs : list EncoderEvent) (j : Job) : list Job :=
  match probe with
  | ProbeFailed diagnostic => [mark_failed bound diagnostic j]
  | Probed total => task_snapshots bound total out evs j
  end.

(** ** Job API surface (section 4.5) and sweeper (section 4.6) *)

(** Modelled from the spec: the errors of the status and fetch_output
    operations (section 7). *)
Inductive ApiError := NotFound | NotReady.

(** Modelled from the spec: [status(job id)] reads the registry. *)
Definition api_status (i : string) (reg : gmap string Job)
  : ApiError + Job :=
  match get i reg with
  | None => inl NotFound
  | Some j => inr j
  end.

(** Modelled from the spec: [fetch_output(job id)] delivers only a
    [Complete] job and removes its record after the transfer. *)
Definition fetch_output (i : string) (reg : gmap string Job)
  : (ApiError + Job) * gmap string Job :=
  match get i reg with
  | None => (inl NotFound, reg)
  | Some j =>
      match status j with
      | Complete => (inr j, remove i reg)
      | Processing | Failed => (inl NotReady, reg)
      end
  end.

(** Modelled from the spec: the HTTP status of section 6 (404 unknown id,
    409 not yet complete). *)
Definition http_code (r : ApiError + Job) : Z :=
  match r with
  | inl NotFound => 404
  | inl NotReady => 409
  | inr _ => 200
  end.

(** Modelled from the spec: the job id a path carries behind the prefix of
    its route (section 6, "job id in path"). *)
Fixpoint strip_prefix (prefix s : string) : option string :=
  match prefix with
  | EmptyString => Some s
  | String a prefix' =>
      match s with
      | EmptyString => None
      | String b s' =>
          if Ascii.eqb a b then strip_prefix prefix' s' else None
      end
  end.

(** Modelled from the spec: the server's HTTP answer to a GET of
    [pathname] (section 6): the result of [status] for a path under
    /status/, of [fetch_output] for a path under /download/, with the
    status code of that result; [render] gives the headers and the body for
    a result, which the spec leaves open for the errors. *)
Definition http_reply (render : ApiError + Job -> JS.Headers * string)
    (reg : gmap string Job) (pathname : string) : option Worker.Response :=
  let reply r :=
    Worker.mkResponse (http_code r) (fst (render r)) (snd (render r)) in
  match strip_prefix "/status/" pathname with
  | Some i => Some (reply (api_status i reg))
  | None =>
      match strip_prefix "/download/" pathname with
      | Some i => Some (reply (fst (fetch_output i reg)))
      | None => None
      end
  end.

(** Modelled from the spec: the sweeper removes the records whose artifacts
    are older than the retention window. *)
Definition sweep (retention now : Z) (reg : gmap string Job)
  : gmap string Job :=
  filter (fun kv => (now < created_at (snd kv) + retention)%Z) reg.

(** ** The process as a whole *)

(** Modelled from the spec: a running orchestration task (sections 4.3 and
    9), which owns the subprocess of its job: the bound of its diagnostic
    text, its output location, and the total duration once probed. *)
Record Task := mkTask {
  task_bound : nat;
  task_out : string;
  task_total : option Z
}.

(** Modelled from the spec: the state of the process: the registry, the
    orchestration tasks that are running, one per job at most, and the ids
    issued so far (an id, once issued, belongs to one Job for the lifetime
    of the process). *)
Record System := mkSystem {
  registry : gmap string Job;
  running : gmap string Task;
  issued : gset string
}.

Definition empty_system : System := mkSystem ∅ ∅ ∅.

(** Modelled from the spec: what can happen (sections 4.1 to 4.6): a
    submission with a fresh id, the result of the probe of a job's input,
    an event of a job's encoder subprocess, a status read, a fetch of the
    output, a sweep. *)
Inductive Op :=
  | Submit (i : string) (opts : Options) (input : string) (now : Z)
      (bound : nat) (out : string)
  | ProbeDone (i : string) (probe : Probe)
  | Encoder (i : string) (ev : EncoderEvent)
  | GetStatus (i : string)
  | FetchOutput (i : string)
  | Sweep (retention now : Z).

(** Modelled from the spec: the effect of each.  A submission creates the
    [Processing] record and starts the job's task; the probe and the
    encoder's events reach the task that owns the subprocess, which
    publishes the derived mutation and ends with a failed probe or the exit
    of the subprocess; without such a task they reach nobody.  [status]
    only reads; [fetch_output] and the sweeper remove records. *)
Definition step (op : Op) (sys : System) : System :=
  match op with
  | Submit i opts input now bound out =>
      if decide (i ∈ issued sys) then sys
      else mkSystem (create i opts input now (registry sys))
             (<[i := mkTask bound out None]> (running sys))
             ({[i]} ∪ issued sys)
  | ProbeDone i probe =>
      match running sys !! i with
      | Some (mkTask bound out None) =>
          match probe with
          | Probed total =>
              mkSystem (registry sys)
                (<[i := mkTask bound out (Some total)]> (running sys))
                (issued sys)
          | ProbeFailed diagnostic =>
              mkSystem (update i (mark_failed bound diagnostic) (registry sys))
                (delete i (running sys)) (issued sys)
          end
      | _ => sys
      end
  | Encoder i ev =>
      match running sys !! i with
      | Some (mkTask bound out (Some total)) =>
          mkSystem (update i (publish bound total out ev) (registry sys))
            (match ev with
             | Exited _ _ _ => delete i (running sys)
             | _ => running sys
             end)
            (issued sys)
      | _ => sys
      end
  | GetStatus i => sys
  | FetchOutput i =>
      mkSystem (snd (fetch_output i (registry sys))) (running sys) (issued sys)
  | Sweep retention now =>
      mkSystem (sweep retention now (registry sys)) (running sys) (issued sys)
  end.

(** The state after a history of operations. *)
Definition run (ops : list Op) (sys : System) : System :=
  fold_left (fun sys op => step op sys) ops sys.

(** What every reachable state satisfies: the recorded ids were issued,
    and a job whose task is running is [Processing]. *)
Definition consistent (sys : System) : Prop :=
  (forall i j, registry sys !! i = Some j -> i ∈ issued sys) /\
  (forall i task j,
     running sys !! i = Some task -> registry sys !! i = Some j ->
     status j = Processing).

(** ** Concrete instances, for evaluation *)

Definition demo_options : Options := mkOptions 30 "128k" true.

Definition demo_job : Job :=
  mkJob "job-1" Processing 0 demo_options "/tmp/conversions/job-1.mp4"
    None None None 1000.

(** A clip of 2 s (durations in microseconds): two status lines with the
    sampler's result between them, a successful exit, and a stray line. *)
Definition demo_events : list EncoderEvent :=
  [StatusLine 500000; Sampled (Some "0x0BB600"); StatusLine 2000000;
   Exited 0 4096 EmptyString; StatusLine 1].

Definition demo_done : Job :=
  mkJob "job-1" Complete 100 demo_options "/tmp/conversions/job-1.mp4"
    (Some "/tmp/conversions/job-1.webm") (Some "0x0BB600") None 1000.

Definition demo_render (r : ApiError + Job) : JS.Headers * string :=
  match r with
  | inl NotFound => ([("content-type", "application/json")], "unknown job")
  | inl NotReady => ([("content-type", "application/json")], "not ready")
  | inr j => ([("content-type", "application/json")], id j)
  end.

(** The history of that job, from its submission to the exit of the
    encoder. *)
Definition demo_history : list Op :=
  [Submit "job-1" demo_options "/tmp/conversions/job-1.mp4" 1000 200
     "/tmp/conversions/job-1.webm";
   ProbeDone "job-1" (Probed 2000000);
   Encoder "job-1" (StatusLine 500000);
   Encoder "job-1" (Sampled (Some "0x0BB600"));
   Encoder "job-1" (StatusLine 2000000);
   Encoder "job-1" (Exited 0 4096 EmptyString)].

End Core.

(* ===================================================================== *)
(** * Facts about the platform operations                                 *)
(* ===================================================================== *)

Module JSFacts.
Import JS.

#[local] Arguments String.append !s1 s2 : simpl nomatch.

Example split_status :
  split "/status/abc" "/status/" = [EmptyString; "abc"].
Proof. reflexivity. Qed.

Example split_status_twice :
  split "/status/a/status/b" "/status/" = [EmptyString; "a"; "b"].
Proof. reflexivity. Qed.

Example split_trailing : split "a/status/" "/status/" = ["a"; EmptyString].
Proof. reflexivity. Qed.

Example includes_timeout : includes "Upload timeout" "timeout" = true.
Proof. reflexivity. Qed.

Example includes_case : includes "Timeout" "timeout" = false.
Proof. reflexivity. Qed.

Example stringify_status_ok :
  stringify (JObject [("status", JString "ok")])
  = "{" +:+ quoted "status" +:+ ":" +:+ quoted "ok" +:+ "}".
Proof. reflexivity. Qed.

Example stringify_array :
  stringify (JArray [JString "a"; JString "b"])
  = "[" +:+ quoted "a" +:+ "," +:+ quoted "b" +:+ "]".
Proof. reflexivity. Qed.

Example escape_quote_backslash :
  escape (String dquote "\") = String "\" (String dquote "\\").
Proof. reflexivity. Qed.

Example escape_control : escape (String "001" "a") = "\u0001a".
Proof. reflexivity. Qed.

Example entries_lowercase_sorted :
  entries [("Content-Type", "video/mp4"); ("Accept", "a"); ("accept", "b")]
  = [("accept", "a, b"); ("content-type", "video/mp4")].
Proof. reflexivity. Qed.

Example headers_of_obj_merges_case :
  get (headers_of_obj [("x-job-id", "a"); ("X-Job-Id", "b")]) "X-Job-Id"
  = Some "a, b".
Proof. reflexivity. Qed.

Lemma append_empty_r (s : string) : s +:+ EmptyString = s.
Proof. induction s as [|c s IH]; simpl; [reflexivity | now rewrite IH]. Qed.

Lemma append_assoc (a b c : string) : (a +:+ b) +:+ c = a +:+ (b +:+ c).
Proof. induction a as [|x a IH]; simpl; [reflexivity | now rewrite IH]. Qed.

(** [startsWith] holds exactly of the strings that begin with the prefix. *)
Lemma startsWith_spec (s p : string) :
  startsWith s p = true <-> exists post, s = p +:+ post.
Proof.
  revert s. induction p as [|a p IH]; intros s; simpl.
  - split; [intros _; now exists s | reflexivity].
  - destruct s as [|b s].
    + split; [discriminate | intros [post H]; discriminate].
    + rewrite andb_true_iff, Ascii.eqb_eq, IH. split.
      * intros [-> [post ->]]. now exists post.
      * intros [post H]. injection H as -> ->. split; [reflexivity | now exists post].
Qed.

Lemma startsWith_append (p s : string) : startsWith (p +:+ s) p = true.
Proof. apply startsWith_spec. now exists s. Qed.

(** [includes] holds exactly of the strings that contain the substring. *)
Lemma includes_spec (s sub : string) :
  includes s sub = true <-> exists pre post, s = pre +:+ sub +:+ post.
Proof.
  induction s as [|c s IH].
  - cbn [includes]. rewrite orb_false_r, startsWith_spec. split.
    + intros [post H]. now exists EmptyString, post.
    + intros [[|a pre] [post H]]; [now exists post | discriminate].
  - cbn [includes]. rewrite orb_true_iff, startsWith_spec, IH. split.
    + intros [[post H] | [pre [post H]]].
      * now exists EmptyString, post.
      * exists (String c pre), post. simpl. now rewrite H.
    + intros [[|a pre] [post H]].
      * left. now exists post.
      * right. simpl in H. injection H as -> ->. now exists pre, post.
Qed.

Lemma includes_false_tail (c : ascii) (s sub : string) :
  includes (String c s) sub = false ->
  startsWith (String c s) sub = false /\ includes s sub = false.
Proof. cbn [includes]. intros H. now apply orb_false_iff in H. Qed.

(** Dropping the rest of a matched separator. *)
Lemma split_go_skip (sep t cur s : string) :
  split_go sep (String.length t) cur (t +:+ s) = split_go sep 0 cur s.
Proof.
  induction t as [|a t IH]; simpl; [reflexivity | exact IH].
Qed.

(** Without an occurrence of the separator the rest is one piece. *)
Lemma split_go_no_sep (sep s : string) : forall cur,
  includes s sep = false -> split_go sep 0 cur s = [cur +:+ s].
Proof.
  induction s as [|c s IH]; intros cur H.
  - simpl. now rewrite append_empty_r.
  - apply includes_false_tail in H as [Hs Hi].
    cbn [split_go]. rewrite Hs, (IH _ Hi), append_assoc. reflexivity.
Qed.

(** [(sep + id).split(sep)] is the empty piece and [id] when [id] is free
    of the separator. *)
Lemma split_prefixed (c : ascii) (sep' id : string) :
  includes id (String c sep') = false ->
  split (String c sep' +:+ id) (String c sep') = [EmptyString; id].
Proof.
  intros H. unfold split.
  change (String c sep' +:+ id) with (String c (sep' +:+ id)).
  cbn [split_go].
  change (String c (sep' +:+ id)) with (String c sep' +:+ id).
  rewrite startsWith_append.
  replace (String.length (String c sep') - 1)%nat with (String.length sep')
    by (simpl; lia).
  rewrite split_go_skip, (split_go_no_sep _ _ _ H). reflexivity.
Qed.

(** ** Headers through a plain object *)

Lemma lower_ascii_idem (c : ascii) : lower_ascii (lower_ascii c) = lower_ascii c.
Proof. destruct c as [[] [] [] [] [] [] [] []]; reflexivity. Qed.

Lemma toLowerCase_idem (s : string) : toLowerCase (toLowerCase s) = toLowerCase s.
Proof.
  induction s as [|c s IH]; cbn [toLowerCase]; [reflexivity|].
  now rewrite lower_ascii_idem, IH.
Qed.

Lemma same_name_lower_r (a b : string) :
  same_name a (toLowerCase b) = same_name a b.
Proof. unfold same_name. now rewrite toLowerCase_idem. Qed.

Lemma values_lower (h : Headers) (name : string) :
  values h (toLowerCase name) = values h name.
Proof.
  unfold values. f_equal. apply List.filter_ext. intros kv.
  apply same_name_lower_r.
Qed.

Lemma get_lower (h : Headers) (name : string) :
  get h (toLowerCase name) = get h name.
Proof. unfold get. now rewrite values_lower. Qed.

Lemma headers_of_obj_acc (o : Obj) : forall acc : Headers,
  fold_left (fun h kv => append h (fst kv) (snd kv)) o acc
  = acc ++ map (fun kv => (fst kv, normalize (snd kv))) o.
Proof.
  induction o as [|[k v] o IH]; intros acc; cbn [fold_left map].
  - now rewrite app_nil_r.
  - rewrite IH. unfold append. cbn [fst snd]. now rewrite <- app_assoc.
Qed.

(** A header list built from an object holds the properties in order, with
    normalized values. *)
Lemma headers_of_obj_map (o : Obj) :
  headers_of_obj o = map (fun kv => (fst kv, normalize (snd kv))) o.
Proof. unfold headers_of_obj. now rewrite headers_of_obj_acc. Qed.

Lemma values_normalized (o : Obj) (name : string) :
  values (map (fun kv => (fst kv, normalize (snd kv))) o) name
  = map normalize (values o name).
Proof.
  unfold values. induction o as [|[k v] o IH]; [reflexivity|].
  cbn [map List.filter fst snd].
  destruct (same_name k name); cbn [map snd]; now rewrite IH.
Qed.

Lemma obj_get_set (o : Obj) (k v k' : string) :
  obj_get (obj_set o k v) k'
  = if String.eqb k k' then Some v else obj_get o k'.
Proof.
  induction o as [|[k0 v0] o IH]; cbn [obj_set obj_get].
  - destruct (String.eqb_spec k k'); reflexivity.
  - destruct (String.eqb_spec k0 k) as [->|Hne]; cbn [obj_get].
    + destruct (String.eqb_spec k k'); reflexivity.
    + rewrite IH. destruct (String.eqb_spec k0 k') as [->|Hne'].
      * destruct (String.eqb_spec k k'); [congruence|reflexivity].
      * reflexivity.
Qed.

Lemma obj_set_keys (o : Obj) (k v : string) :
  forall x, x ∈ map fst (obj_set o k v) <-> x = k \/ x ∈ map fst o.
Proof.
  induction o as [|[k0 v0] o IH]; intros x; cbn [obj_set map fst].
  - rewrite list_elem_of_singleton, elem_of_nil. tauto.
  - destruct (String.eqb_spec k0 k) as [->|Hne]; cbn [map fst].
    + rewrite elem_of_cons. tauto.
    + rewrite !elem_of_cons, IH. tauto.
Qed.

Lemma obj_set_NoDup (o : Obj) (k v : string) :
  NoDup (map fst o) -> NoDup (map fst (obj_set o k v)).
Proof.
  induction o as [|[k0 v0] o IH]; intros Hnd; cbn [obj_set map fst].
  - apply NoDup_singleton.
  - cbn [map fst] in Hnd. apply NoDup_cons in Hnd as [Hin Hnd].
    destruct (String.eqb_spec k0 k) as [->|Hne]; cbn [map fst].
    + apply NoDup_cons. split; assumption.
    + apply NoDup_cons. split; [|now apply IH].
      rewrite obj_set_keys. intros [?|?]; [congruence|contradiction].
Qed.

Lemma obj_set_absent (o : Obj) (k v : string) :
  k ∉ map fst o -> obj_set o k v = o ++ [(k, v)].
Proof.
  induction o as [|[k0 v0] o IH]; intros Hk; cbn [obj_set]; [reflexivity|].
  cbn [map fst] in Hk. apply not_elem_of_cons in Hk as [Hne Hk].
  destruct (String.eqb_spec k0 k) as [->|_]; [contradiction|].
  now rewrite IH.
Qed.

Lemma fromEntries_acc (es : list (string * string)) : forall (o : Obj),
  let o' := fold_left (fun o kv => obj_set o (fst kv) (snd kv)) es o in
  (NoDup (map fst o) -> NoDup (map fst o')) /\
  (forall x, x ∈ map fst o' -> x ∈ map fst o \/ x ∈ map fst es) /\
  (forall k, obj_get o' k
             = fold_left (fun acc kv => if String.eqb (fst kv) k
                                        then Some (snd kv) else acc)
                 es (obj_get o k)).
Proof.
  induction es as [|[k v] es IH]; intros o; cbn [fold_left fst snd].
  - cbv zeta. repeat split; auto.
  - specialize (IH (obj_set o k v)). cbv zeta in *.
    destruct IH as [Hnd [Hk Hg]]. repeat split.
    + intros H. apply Hnd. now apply obj_set_NoDup.
    + intros x Hx. apply Hk in Hx as [Hx|Hx].
      * apply obj_set_keys in Hx as [->|Hx]; [|now left].
        right. apply elem_of_cons. now left.
      * right. apply elem_of_cons. now right.
    + intros k'. rewrite Hg, obj_get_set. reflexivity.
Qed.

Lemma fromEntries_spec (es : list (string * string)) :
  NoDup (map fst (fromEntries es)) /\
  (forall x, x ∈ map fst (fromEntries es) -> x ∈ map fst es) /\
  (forall k, obj_get (fromEntries es) k = assoc_last es k).
Proof.
  destruct (fromEntries_acc es []) as [Hnd [Hk Hg]]. cbv zeta in *.
  repeat split.
  - apply Hnd. constructor.
  - intros x Hx. apply Hk in Hx as [Hx|Hx]; [|exact Hx].
    now apply elem_of_nil in Hx.
  - exact Hg.
Qed.

Lemma same_name_own (k name : string) :
  toLowerCase k = k -> same_name k name = String.eqb k (toLowerCase name).
Proof. intros H. unfold same_name. now rewrite H. Qed.

Lemma values_cons (k v : string) (o : Headers) (name : string) :
  values ((k, v) :: o) name
  = if same_name k name then v :: values o name else values o name.
Proof.
  unfold values. cbn [List.filter fst].
  destruct (same_name k name); reflexivity.
Qed.

Lemma values_app (a b : Headers) (name : string) :
  values (a ++ b) name = values a name ++ values b name.
Proof. unfold values. now rewrite List.filter_app, map_app. Qed.

Lemma values_no_key (o : Obj) (name : string) :
  Forall (fun kv => toLowerCase (fst kv) = fst kv) o ->
  toLowerCase name ∉ map fst o ->
  values o name = [].
Proof.
  induction o as [|[k v] o IH]; intros Hlow Hk; [reflexivity|].
  apply Forall_cons in Hlow as [Hk0 Hlow]. cbn [fst] in Hk0.
  cbn [map fst] in Hk. apply not_elem_of_cons in Hk as [Hne Hk].
  rewrite values_cons, (same_name_own _ _ Hk0).
  destruct (String.eqb_spec k (toLowerCase name)); [congruence|].
  now apply IH.
Qed.

(** In an object with lower-case keys, the values a header name selects are
    the property of that name. *)
Lemma values_obj (o : Obj) (name : string) :
  Forall (fun kv => toLowerCase (fst kv) = fst kv) o ->
  NoDup (map fst o) ->
  values o name = option_list (obj_get o (toLowerCase name)).
Proof.
  induction o as [|[k v] o IH]; intros Hlow Hnd; [reflexivity|].
  apply Forall_cons in Hlow as [Hk0 Hlow]. cbn [fst] in Hk0.
  cbn [map fst] in Hnd. apply NoDup_cons in Hnd as [Hin Hnd].
  rewrite values_cons, (same_name_own _ _ Hk0). cbn [obj_get].
  destruct (String.eqb_spec k (toLowerCase name)) as [->|Hne].
  - rewrite (values_no_key o name Hlow Hin). reflexivity.
  - now apply IH.
Qed.

Lemma assoc_last_acc (es : list (string * string)) (k : string) :
  forall acc,
    fold_left (fun acc kv => if String.eqb (fst kv) k
                             then Some (snd kv) else acc) es acc
    = match assoc_last es k with
      | Some v => Some v
      | None => acc
      end.
Proof.
  unfold assoc_last.
  induction es as [|[k0 v0] es IH]; intros acc; cbn [fold_left fst snd];
    [reflexivity|].
  rewrite IH. rewrite (IH (if String.eqb k0 k then Some v0 else None)).
  destruct (fold_left _ es None); [reflexivity|].
  destruct (String.eqb k0 k); reflexivity.
Qed.

Lemma assoc_last_app (a b : list (string * string)) (k : string) :
  assoc_last (a ++ b) k
  = match assoc_last b k with
    | Some v => Some v
    | None => assoc_last a k
    end.
Proof.
  unfold assoc_last at 1. rewrite fold_left_app.
  fold (assoc_last a k). apply assoc_last_acc.
Qed.

Lemma assoc_last_other (es : list (string * string)) (k : string) :
  Forall (fun kv => fst kv <> k) es -> assoc_last es k = None.
Proof.
  induction es as [|[k0 v0] es IH]; intros H; [reflexivity|].
  apply Forall_cons in H as [Hne H]. cbn [fst] in Hne.
  change ((k0, v0) :: es) with ([(k0, v0)] ++ es).
  rewrite assoc_last_app, (IH H). unfold assoc_last. cbn.
  destruct (String.eqb_spec k0 k); [contradiction|reflexivity].
Qed.

Lemma assoc_last_flat_map (f : string -> list (string * string))
    (ns : list string) (k : string) :
  (forall m, Forall (fun kv => fst kv = m) (f m)) ->
  assoc_last (flat_map f ns) k
  = if decide (k ∈ ns) then assoc_last (f k) k else None.
Proof.
  intros Hf. induction ns as [|m ns IH]; [reflexivity|].
  cbn [flat_map]. rewrite assoc_last_app, IH.
  assert (Hm : m <> k -> assoc_last (f m) k = None).
  { intros Hne. apply assoc_last_other.
    eapply Forall_impl; [apply Hf|]. cbn. congruence. }
  destruct (decide (k ∈ ns)) as [Hin|Hin].
  - rewrite decide_True by (apply elem_of_cons; now right).
    destruct (assoc_last (f k) k) eqn:Hk; [reflexivity|].
    destruct (decide (m = k)) as [->|Hne]; [exact Hk | now apply Hm].
  - destruct (decide (m = k)) as [->|Hne].
    + rewrite decide_True by (apply elem_of_cons; now left). reflexivity.
    + rewrite decide_False; [now apply Hm|].
      intros [?|?]%elem_of_cons; congruence.
Qed.

Lemma insert_sorted_elem (n : string) (l : list string) (x : string) :
  x ∈ insert_sorted n l <-> x = n \/ x ∈ l.
Proof.
  induction l as [|m l IH]; cbn [insert_sorted].
  - rewrite list_elem_of_singleton, elem_of_nil. tauto.
  - destruct (String.eqb_spec n m) as [->|Hne].
    + rewrite elem_of_cons. tauto.
    + destruct (String.ltb n m).
      * rewrite elem_of_cons. tauto.
      * rewrite !elem_of_cons, IH. tauto.
Qed.

Lemma sorted_names_elem (h : Headers) (n : string) :
  n ∈ sorted_names h <-> exists kv, kv ∈ h /\ toLowerCase (fst kv) = n.
Proof.
  unfold sorted_names. induction h as [|kv h IH]; cbn [fold_right].
  - rewrite elem_of_nil. split; [tauto|]. intros [kv [H _]].
    now apply elem_of_nil in H.
  - rewrite insert_sorted_elem, IH. split.
    + intros [->|[kv' [Hin Hl]]].
      * exists kv. split; [apply elem_of_cons; now left | reflexivity].
      * exists kv'. split; [apply elem_of_cons; now right | exact Hl].
    + intros [kv' [[->|Hin]%elem_of_cons Hl]]; [now left|].
      right. now exists kv'.
Qed.

Lemma values_absent (h : Headers) (n : string) :
  toLowerCase n = n -> n ∉ sorted_names h -> values h n = [].
Proof.
  intros Hn Hk. unfold values.
  replace (List.filter (fun kv => same_name (fst kv) n) h) with (@nil (string * string)); [reflexivity|].
  symmetry. induction h as [|kv h IH]; [reflexivity|]. cbn [List.filter].
  destruct (same_name (fst kv) n) eqn:Hs.
  - exfalso. apply Hk. apply sorted_names_elem. exists kv.
    split; [apply elem_of_cons; now left|].
    unfold same_name in Hs. apply String.eqb_eq in Hs. congruence.
  - apply IH. intros Hin. apply Hk. apply sorted_names_elem.
    apply sorted_names_elem in Hin as [kv' [Hin Hl]].
    exists kv'. split; [apply elem_of_cons; now right | exact Hl].
Qed.

Lemma entries_of_keys (h : Headers) (m : string) :
  Forall (fun kv => fst kv = m) (entries_of h m).
Proof.
  unfold entries_of. destruct (String.eqb m "set-cookie").
  - apply Forall_forall. intros kv [v [-> _]]%list_elem_of_fmap. reflexivity.
  - destruct (get h m); repeat constructor.
Qed.

Lemma entries_of_last (h : Headers) (n : string) :
  (length (values h "set-cookie") <= 1)%nat ->
  assoc_last (entries_of h n) n = get h n.
Proof.
  intros Hsc. unfold entries_of.
  destruct (String.eqb_spec n "set-cookie") as [->|Hne].
  - unfold get. destruct (values h "set-cookie") as [|v [|v' vs]].
    + reflexivity.
    + reflexivity.
    + cbn in Hsc. lia.
  - destruct (get h n) as [v|]; [|reflexivity].
    unfold assoc_last. cbn. now rewrite String.eqb_refl.
Qed.

Lemma entries_assoc_last (h : Headers) (n : string) :
  (length (values h "set-cookie") <= 1)%nat ->
  toLowerCase n = n ->
  assoc_last (entries h) n = get h n.
Proof.
  intros Hsc Hn. unfold entries.
  rewrite (assoc_last_flat_map (entries_of h) _ _ (entries_of_keys h)).
  destruct (decide (n ∈ sorted_names h)) as [Hin|Hin].
  - now apply entries_of_last.
  - unfold get. now rewrite (values_absent h n Hn Hin).
Qed.

Lemma entries_keys_lower (h : Headers) :
  Forall (fun kv => toLowerCase (fst kv) = fst kv) (entries h).
Proof.
  unfold entries. apply Forall_forall. intros kv Hkv.
  apply list_elem_of_In, in_flat_map in Hkv as [m [Hm Hkv]].
  apply list_elem_of_In in Hm, Hkv.
  pose proof (entries_of_keys h m) as Hk.
  rewrite Forall_forall in Hk. rewrite (Hk kv Hkv).
  apply sorted_names_elem in Hm as [kv' [_ <-]]. apply toLowerCase_idem.
Qed.

End JSFacts.

(* ===================================================================== *)
(** * Facts about the worker                                              *)
(* ===================================================================== *)

Module WorkerFacts.
Import Worker.

#[local] Arguments String.append !s1 s2 : simpl nomatch.

Section Routes.

Context {Container : Type}.
Context (getContainer : option string -> Container).
Context (URL_pathname : string -> string).
Context (w : World Container).

Local Abbreviation handler := (fetch getContainer URL_pathname w).

(** The five routes, one equation each. *)

Lemma fetch_health (request : Request) (s : St Container) :
  URL_pathname (url request) = "/health" ->
  handler request s
  = (Ok (json_response 200 (JS.JObject [("status", JS.JString "ok")])), s).
Proof. intros H. unfold fetch. rewrite H. reflexivity. Qed.

Lemma fetch_upload (request : Request) (s : St Container) :
  is_upload URL_pathname request = true ->
  handler request s
  = let jobId := randomUUID w (uuid_calls s) in
    let s' := after_call s 1
                [EvRandomUUID jobId; EvGetContainer (Some jobId);
                 EvFetch (getContainer (Some jobId))
                   (clonedRequest request jobId) 25000] in
    match race (fetch_wins_tie w) (containerFetch w (fetch_calls s)) 25000
            "Upload timeout" with
    | Ok response => (Ok response, s')
    | Throw error => (Ok (upload_error_response error), s')
    end.
Proof.
  unfold is_upload. intros H.
  apply andb_true_iff in H as [H Hm]. apply andb_true_iff in H as [Hh Hu].
  apply negb_true_iff in Hh.
  unfold fetch. rewrite Hh, Hu, Hm. cbn [andb].
  unfold try_catch, mbind, M_bind, crypto_randomUUID, get_container,
    fetch_race, emit, after_call. cbn.
  rewrite <- !app_assoc. cbn [app].
  destruct (race _ _ _ _); reflexivity.
Qed.

Lemma fetch_status (request : Request) (s : St Container) :
  is_status URL_pathname request = true ->
  handler request s
  = let jobId := path_segment (URL_pathname (url request)) "/status/" in
    let s' := after_call s 0
                [EvGetContainer jobId;
                 EvFetch (getContainer jobId) request 5000] in
    match race (fetch_wins_tie w) (containerFetch w (fetch_calls s)) 5000
            "Status check timeout" with
    | Ok response => (Ok response, s')
    | Throw error =>
        (Ok (json_response 500
               (JS.JObject
                  [("error", JS.JString "Failed to check status");
                   ("details", JS.JString (String_of error))])), s')
    end.
Proof.
  unfold is_status. intros H.
  apply andb_true_iff in H as [H Hm]. apply andb_true_iff in H as [H Hp].
  apply andb_true_iff in H as [Hh Hu].
  apply negb_true_iff in Hh. apply negb_true_iff in Hu.
  unfold fetch. rewrite Hh, Hu, Hp, Hm. cbn [andb].
  unfold try_catch, mbind, M_bind, get_container, fetch_race, emit,
    after_call. cbn.
  rewrite <- !app_assoc. cbn [app].
  destruct (race _ _ _ _); reflexivity.
Qed.

Lemma fetch_download (request : Request) (s : St Container) :
  is_download URL_pathname request = true ->
  handler request s
  = let jobId := path_segment (URL_pathname (url request)) "/download/" in
    let s' := after_call s 0
                [EvGetContainer jobId;
                 EvFetch (getContainer jobId) request 30000] in
    match race (fetch_wins_tie w) (containerFetch w (fetch_calls s)) 30000
            "Download timeout" with
    | Ok response => (Ok response, s')
    | Throw error =>
        (Ok (json_response 500
               (JS.JObject
                  [("error", JS.JString "Failed to download video");
                   ("details", JS.JString (String_of error))])), s')
    end.
Proof.
  unfold is_download. intros H.
  apply andb_true_iff in H as [H Hm]. apply andb_true_iff in H as [H Hp].
  apply andb_true_iff in H as [H Hs]. apply andb_true_iff in H as [Hh Hu].
  apply negb_true_iff in Hh. apply negb_true_iff in Hu.
  apply negb_true_iff in Hs.
  unfold fetch. rewrite Hh, Hu, Hs, Hp, Hm. cbn [andb].
  unfold try_catch, mbind, M_bind, get_container, fetch_race, emit,
    after_call. cbn.
  rewrite <- !app_assoc. cbn [app].
  destruct (race _ _ _ _); reflexivity.
Qed.

Lemma fetch_other (request : Request) (s : St Container) :
  URL_pathname (url request) <> "/health" ->
  is_upload URL_pathname request = false ->
  is_status URL_pathname request = false ->
  is_download URL_pathname request = false ->
  handler request s = (Ok not_found_response, s).
Proof.
  unfold is_upload, is_status, is_download. intros Hh Hu Hs Hd.
  apply String.eqb_neq in Hh. rewrite Hh in Hu, Hs, Hd. cbn [negb andb] in *.
  unfold fetch. rewrite Hh, Hu. rewrite Hu in Hs, Hd. cbn [negb andb] in *.
  rewrite Hs. rewrite Hs in Hd. cbn [negb andb] in *. rewrite Hd.
  reflexivity.
Qed.

(** The handler always answers with a response. *)
Lemma fetch_never_throws (request : Request) (s : St Container) :
  exists response, fst (handler request s) = Ok response.
Proof.
  destruct (String.eqb_spec (URL_pathname (url request)) "/health") as [Hh|Hh].
  { rewrite fetch_health by exact Hh. eauto. }
  destruct (is_upload URL_pathname request) eqn:Hu.
  { rewrite fetch_upload by exact Hu. cbv zeta. destruct (race _ _ _ _); eauto. }
  destruct (is_status URL_pathname request) eqn:Hs.
  { rewrite fetch_status by exact Hs. cbv zeta. destruct (race _ _ _ _); eauto. }
  destruct (is_download URL_pathname request) eqn:Hd.
  { rewrite fetch_download by exact Hd. cbv zeta. destruct (race _ _ _ _); eauto. }
  rewrite fetch_other by assumption. eauto.
Qed.

(** ** The health route *)

(** C8: a request whose path is /health is answered 200 with the body
    {"status":"ok"} and the JSON content type; the invocation draws no id,
    calls no container and leaves the state as it found it, whatever the
    world and the state are. *)
Theorem health_is_constant (request : Request) (s : St Container) :
  URL_pathname (url request) = "/health" ->
  handler request s
  = (Ok (mkResponse 200 [("Content-Type", "application/json")]
           ("{" +:+ JS.quoted "status" +:+ ":" +:+ JS.quoted "ok" +:+ "}")),
     s).
Proof. intros H. rewrite fetch_health by exact H. reflexivity. Qed.

(** ** The upload route *)

Lemma race_settled_first (tie : bool) (t limit : Z) (label : string) :
  (t < limit)%Z -> settles_before tie t limit = true.
Proof.
  intros H. unfold settles_before.
  apply orb_true_iff. left. now apply Z.ltb_lt.
Qed.

Lemma race_settled_late (tie : bool) (t limit : Z) :
  (limit < t)%Z -> settles_before tie t limit = false.
Proof.
  intros H. unfold settles_before.
  apply orb_false_iff. split.
  - apply Z.ltb_ge. lia.
  - apply andb_false_iff. left. apply Z.eqb_neq. lia.
Qed.

Lemma race_timer_first (tie : bool) (p : Settle) (limit : Z) (label : string) :
  settles_after limit p -> race tie p limit label = Throw (newError label).
Proof.
  destruct p as [t r|t e|]; simpl; intros H; [| |reflexivity];
    now rewrite (race_settled_late _ _ _ H).
Qed.

(** C10: when the forwarding of an upload ends in a thrown error, by a
    rejection of the container fetch or by the timer, the answer is a JSON
    response.  The error's message is the [message] of an [Error] object
    and the string conversion of any other thrown value; the status is 504
    exactly when that message contains "timeout", with error text
    "Upload timeout - file too large", and it is 500 with error text
    "Upload failed" for every other message; the message is the details of
    the body.  The worker's own timer is answered 504. *)
Theorem upload_failure_classified (request : Request) (s : St Container)
    (error : Thrown) :
  is_upload URL_pathname request = true ->
  race (fetch_wins_tie w) (containerFetch w (fetch_calls s)) 25000
    "Upload timeout" = Throw error ->
  let message := match error with
                 | ErrorObj _ message => message
                 | NonError text => text
                 end in
  let has_timeout := exists pre post, message = pre +:+ "timeout" +:+ post in
  exists response,
    fst (handler request s) = Ok response /\
    resp_headers response = [("Content-Type", "application/json")] /\
    (status response = 504%Z <-> has_timeout) /\
    (has_timeout ->
     status response = 504%Z /\
     resp_body response
     = JS.stringify
         (JS.JObject
            [("error", JS.JString "Upload timeout - file too large");
             ("details", JS.JString message)])) /\
    (~ has_timeout ->
     status response = 500%Z /\
     resp_body response
     = JS.stringify
         (JS.JObject
            [("error", JS.JString "Upload failed");
             ("details", JS.JString message)])) /\
    (settles_after 25000 (containerFetch w (fetch_calls s)) ->
     status response = 504%Z /\ message = "Upload timeout").
Proof.
  intros Hu Hr message has_timeout.
  rewrite fetch_upload by exact Hu. cbv zeta. rewrite Hr. cbn [fst].
  exists (upload_error_response error).
  assert (Hm : errorMessage_of error = message) by (destruct error; reflexivity).
  assert (Hlate : settles_after 25000 (containerFetch w (fetch_calls s)) ->
                  message = "Upload timeout").
  { intros Hl.
    rewrite (race_timer_first _ _ _ "Upload timeout" Hl) in Hr.
    injection Hr as <-. reflexivity. }
  unfold upload_error_response. rewrite Hm.
  pose proof (JSFacts.includes_spec message "timeout") as Hspec.
  fold has_timeout in Hspec.
  destruct (JS.includes message "timeout") eqn:Hinc.
  - assert (Ht : has_timeout) by now apply Hspec.
    split; [reflexivity|]. split; [reflexivity|]. split; [|split; [|split]].
    + split; [intros _; exact Ht | reflexivity].
    + intros _. split; reflexivity.
    + intros Hn. now destruct Hn.
    + intros Hl. split; [reflexivity | now apply Hlate].
  - assert (Hn : ~ has_timeout) by (intros Ht; apply Hspec in Ht; discriminate).
    split; [reflexivity|]. split; [reflexivity|]. split; [|split; [|split]].
    + split; [intros H; discriminate H | intros Ht; now destruct Hn].
    + intros Ht. now destruct Hn.
    + intros _. split; reflexivity.
    + intros Hl. apply Hlate in Hl. rewrite Hl in Hinc. discriminate Hinc.
Qed.


(** ** Affinity *)

Lemma status_path_is_status (request : Request) (jobId : string) :
  URL_pathname (url request) = "/status/" +:+ jobId ->
  method request = "GET" ->
  is_status URL_pathname request = true.
Proof. intros Hp Hm. unfold is_status. rewrite Hp, Hm. reflexivity. Qed.

Lemma download_path_is_download (request : Request) (jobId : string) :
  URL_pathname (url request) = "/download/" +:+ jobId ->
  method request = "GET" ->
  is_download URL_pathname request = true.
Proof. intros Hp Hm. unfold is_download. rewrite Hp, Hm. reflexivity. Qed.

(** C1: the upload that generated a job id, a status request and a
    download request whose path carries that id after /status/ or
    /download/ all ask getContainer for the stub of that id and send their
    request to it, and to nothing else. *)
Theorem job_affinity (jobId : string)
    (upload check download : Request) (s0 s1 s2 : St Container) :
  is_upload URL_pathname upload = true ->
  randomUUID w (uuid_calls s0) = jobId ->
  URL_pathname (url check) = "/status/" +:+ jobId ->
  method check = "GET" ->
  URL_pathname (url download) = "/download/" +:+ jobId ->
  method download = "GET" ->
  JS.includes jobId "/status/" = false ->
  JS.includes jobId "/download/" = false ->
  let stub := getContainer (Some jobId) in
  trace (snd (handler upload (forget_trace s0)))
  = [EvRandomUUID jobId; EvGetContainer (Some jobId);
     EvFetch stub (clonedRequest upload jobId) 25000] /\
  trace (snd (handler check (forget_trace s1)))
  = [EvGetContainer (Some jobId); EvFetch stub check 5000] /\
  trace (snd (handler download (forget_trace s2)))
  = [EvGetContainer (Some jobId); EvFetch stub download 30000].
Proof.
  intros Hu Hid Hcp Hcm Hdp Hdm Hs Hd stub.
  split; [|split].
  - rewrite fetch_upload by exact Hu. cbv zeta. cbn [forget_trace uuid_calls].
    rewrite Hid. destruct (race _ _ _ _); reflexivity.
  - rewrite fetch_status by eauto using status_path_is_status. cbv zeta.
    rewrite Hcp. unfold path_segment.
    rewrite (JSFacts.split_prefixed _ _ _ Hs). cbn [lookup list_lookup].
    destruct (race _ _ _ _); reflexivity.
  - rewrite fetch_download by eauto using download_path_is_download. cbv zeta.
    rewrite Hdp. unfold path_segment.
    rewrite (JSFacts.split_prefixed _ _ _ Hd). cbn [lookup list_lookup].
    destruct (race _ _ _ _); reflexivity.
Qed.

(** ** Fresh job ids *)

Lemma health_is_no_upload (request : Request) :
  URL_pathname (url request) = "/health" ->
  is_upload URL_pathname request = false.
Proof. intros H. unfold is_upload. rewrite H. reflexivity. Qed.

(** What one invocation does to the id counter, and the id it draws. *)
Lemma fetch_draws (request : Request) (s : St Container) :
  uuid_calls (snd (handler request s))
  = ((if is_upload URL_pathname request then 1 else 0) + uuid_calls s)%nat /\
  generated_job_id (trace (snd (handler request (forget_trace s))))
  = if is_upload URL_pathname request
    then Some (randomUUID w (uuid_calls s)) else None.
Proof.
  destruct (String.eqb_spec (URL_pathname (url request)) "/health") as [Hh|Hh].
  { rewrite !fetch_health by exact Hh.
    rewrite (health_is_no_upload _ Hh). split; reflexivity. }
  destruct (is_upload URL_pathname request) eqn:Hu.
  { rewrite !fetch_upload by exact Hu. cbv zeta.
    split; destruct (race _ _ _ _); reflexivity. }
  destruct (is_status URL_pathname request) eqn:Hs.
  { rewrite !fetch_status by exact Hs. cbv zeta.
    split; destruct (race _ _ _ _); reflexivity. }
  destruct (is_download URL_pathname request) eqn:Hd.
  { rewrite !fetch_download by exact Hd. cbv zeta.
    split; destruct (race _ _ _ _); reflexivity. }
  rewrite !fetch_other by assumption. split; reflexivity.
Qed.

Lemma count_uploads_cons (request : Request) (rest : list Request) :
  count_uploads URL_pathname (request :: rest)
  = ((if is_upload URL_pathname request then 1 else 0)
     + count_uploads URL_pathname rest)%nat.
Proof.
  unfold count_uploads. cbn [List.filter].
  destruct (is_upload URL_pathname request); reflexivity.
Qed.

Lemma count_uploads_take_le (requests : list Request) (i : nat) :
  (count_uploads URL_pathname (take i requests)
   <= count_uploads URL_pathname requests)%nat.
Proof.
  revert i. induction requests as [|a rest IH]; intros [|i];
    cbn [take]; rewrite ?count_uploads_cons; try (cbn; lia).
  specialize (IH i). lia.
Qed.

(** The uploads before position [i], when position [i] holds an upload,
    are fewer than the uploads before any later position. *)
Lemma count_uploads_take_lt (requests : list Request) (i j : nat)
    (request : Request) :
  requests !! i = Some request ->
  is_upload URL_pathname request = true ->
  (i < j)%nat ->
  (count_uploads URL_pathname (take i requests)
   < count_uploads URL_pathname (take j requests))%nat.
Proof.
  revert i j. induction requests as [|a rest IH]; intros i j Hi Hu Hij.
  - discriminate.
  - destruct j as [|j]; [lia|]. destruct i as [|i]; cbn [take].
    + injection Hi as ->. rewrite count_uploads_cons, Hu. cbn. lia.
    + rewrite !count_uploads_cons.
      assert (i < j)%nat as Hlt by lia.
      specialize (IH i j Hi Hu Hlt). lia.
Qed.

Lemma count_uploads_take_bound (requests : list Request) (i : nat)
    (request : Request) :
  requests !! i = Some request ->
  is_upload URL_pathname request = true ->
  (count_uploads URL_pathname (take i requests)
   < count_uploads URL_pathname requests)%nat.
Proof.
  intros Hi Hu.
  pose proof (count_uploads_take_lt requests i (S i) request Hi Hu) as H.
  pose proof (count_uploads_take_le requests (S i)). lia.
Qed.

(** The i-th invocation of a run is the handler on the i-th request, in a
    state whose id counter has advanced by the uploads before it. *)
Lemma serve_invocation (requests : list Request) :
  forall (s : St Container) (i : nat) r tr,
    serve getContainer URL_pathname w requests s !! i = Some (r, tr) ->
    exists request si,
      requests !! i = Some request /\
      uuid_calls si
      = (uuid_calls s + count_uploads URL_pathname (take i requests))%nat /\
      r = fst (handler request (forget_trace si)) /\
      tr = trace (snd (handler request (forget_trace si))).
Proof.
  induction requests as [|a rest IH]; intros s i r tr H; [discriminate|].
  cbn [serve] in H. destruct i as [|i].
  - injection H as <- <-. exists a, s. cbn [take].
    repeat split. cbn. lia.
  - cbn [lookup list_lookup] in H.
    apply IH in H as [request [si [Hi [Hu [Hr Ht]]]]].
    exists request, si. repeat split; try assumption.
    rewrite Hu, (proj1 (fetch_draws a (forget_trace s))).
    cbn [take forget_trace uuid_calls]. rewrite count_uploads_cons. lia.
Qed.

(** It draws an id exactly when its request is an upload: the next unused
    result of [crypto.randomUUID]. *)
Lemma serve_generated (requests : list Request) (s : St Container)
    (i : nat) r tr :
  serve getContainer URL_pathname w requests s !! i = Some (r, tr) ->
  exists request,
    requests !! i = Some request /\
    generated_job_id tr
    = if is_upload URL_pathname request
      then Some (randomUUID w
                   (uuid_calls s
                    + count_uploads URL_pathname (take i requests)))
      else None.
Proof.
  intros H.
  apply serve_invocation in H as [request [si [Hi [Hu [_ ->]]]]].
  exists request. split; [exact Hi|].
  rewrite (proj2 (fetch_draws request si)), Hu. reflexivity.
Qed.

Lemma serve_lookup_upload (requests : list Request) :
  forall (s : St Container) (i : nat) request,
    requests !! i = Some request ->
    exists r tr,
      serve getContainer URL_pathname w requests s !! i = Some (r, tr).
Proof.
  induction requests as [|a rest IH]; intros s i request H; [discriminate|].
  destruct i as [|i]; cbn [serve].
  - eauto.
  - cbn [lookup list_lookup] in *. eauto.
Qed.

(** C4: in a run of the worker over any requests, every upload draws a job
    id of its own from [crypto.randomUUID], whatever its content, asks for
    the stub of that id and forwards the id in X-Job-Id; and, the generator
    not repeating itself over the draws of the run, the ids of two distinct
    invocations differ. *)
Theorem distinct_job_ids (requests : list Request) (s : St Container) :
  NoDup (map (randomUUID w)
           (seq (uuid_calls s) (count_uploads URL_pathname requests))) ->
  (forall (i : nat) request,
     requests !! i = Some request ->
     is_upload URL_pathname request = true ->
     exists r jobId,
       serve getContainer URL_pathname w requests s !! i
       = Some (r, [EvRandomUUID jobId; EvGetContainer (Some jobId);
                   EvFetch (getContainer (Some jobId))
                     (clonedRequest request jobId) 25000])) /\
  (forall (i j : nat) ri tri rj trj idi idj,
     i <> j ->
     serve getContainer URL_pathname w requests s !! i = Some (ri, tri) ->
     serve getContainer URL_pathname w requests s !! j = Some (rj, trj) ->
     generated_job_id tri = Some idi ->
     generated_job_id trj = Some idj ->
     idi <> idj).
Proof.
  intros Hfresh. split.
  - intros i request Hi Hu.
    destruct (serve_lookup_upload requests s i request Hi) as [r [tr H]].
    destruct (serve_invocation requests s i r tr H)
      as [request' [si [Hi' [_ [_ Htr]]]]].
    rewrite Hi in Hi'. injection Hi' as <-.
    exists r, (randomUUID w (uuid_calls si)). rewrite H, Htr.
    rewrite fetch_upload by exact Hu. cbv zeta.
    destruct (race _ _ _ _); reflexivity.
  - assert (Hdraw : forall (i : nat) r tr jobId,
      serve getContainer URL_pathname w requests s !! i = Some (r, tr) ->
      generated_job_id tr = Some jobId ->
      exists request,
        requests !! i = Some request /\
        is_upload URL_pathname request = true /\
        map (randomUUID w)
          (seq (uuid_calls s) (count_uploads URL_pathname requests))
        !! count_uploads URL_pathname (take i requests) = Some jobId).
    { intros i r tr jobId H Hg.
      destruct (serve_generated requests s i r tr H) as [request [Hi Hg']].
      rewrite Hg in Hg'. exists request.
      destruct (is_upload URL_pathname request) eqn:Hu; [|discriminate].
      split; [exact Hi|]. split; [reflexivity|].
      injection Hg' as ->.
      change (map (randomUUID w)) with (fmap (M := list) (randomUUID w)).
      rewrite list_lookup_fmap, lookup_seq_lt; [reflexivity|].
      now apply count_uploads_take_bound with request. }
    intros i j ri tri rj trj idi idj Hij Hi Hj Hgi Hgj Heq. subst idj.
    destruct (Hdraw i ri tri idi Hi Hgi) as [qi [Hqi [Hui Hli]]].
    destruct (Hdraw j rj trj idi Hj Hgj) as [qj [Hqj [Huj Hlj]]].
    pose proof (NoDup_lookup _ _ _ _ Hfresh Hli Hlj) as Hc.
    destruct (Nat.lt_total i j) as [Hlt | [Heq | Hlt]]; [|contradiction|].
    + pose proof (count_uploads_take_lt requests i j qi Hqi Hui Hlt). lia.
    + pose proof (count_uploads_take_lt requests j i qj Hqj Huj Hlt). lia.
Qed.

(** ** Health checking *)

Lemma race_ok_inv (tie : bool) (p : Settle) (limit : Z) (label : string)
    (r : Response) :
  race tie p limit label = Ok r ->
  exists t, p = Resolves t r /\ (t <= limit)%Z.
Proof.
  destruct p as [t r'|t e|]; cbn [race]; [| |discriminate].
  - destruct (settles_before tie t limit) eqn:Hb; [|discriminate].
    intros H. injection H as ->. exists t. split; [reflexivity|].
    unfold settles_before in Hb. apply orb_true_iff in Hb as [Hb|Hb].
    + apply Z.ltb_lt in Hb. lia.
    + apply andb_true_iff in Hb as [Hb _]. apply Z.eqb_eq in Hb. lia.
  - destruct (settles_before tie t limit); discriminate.
Qed.

(** One iteration of the loop. *)
Lemma getHealthyContainer_step (maxRetries remaining : nat)
    (s : St Container) :
  getHealthyContainer_loop w maxRetries (S remaining) s
  = let attempt := (maxRetries - S remaining)%nat in
    let picked := mkSt (uuid_calls s) (fetch_calls s) (S (random_calls s))
                    (trace s ++ [EvGetRandom]) in
    match getRandom w (random_calls s) with
    | Throw e =>
        getHealthyContainer_loop w maxRetries remaining
          (paused maxRetries attempt picked)
    | Ok container =>
        let probed := mkSt (uuid_calls s) (S (fetch_calls s))
                        (S (random_calls s))
                        (trace s
                         ++ [EvGetRandom;
                             EvFetch container health_request 2000]) in
        match race (fetch_wins_tie w) (containerFetch w (fetch_calls s)) 2000
                "Health check timeout" with
        | Ok healthCheck =>
            if ok healthCheck then (Ok container, probed)
            else getHealthyContainer_loop w maxRetries remaining probed
        | Throw e =>
            getHealthyContainer_loop w maxRetries remaining
              (paused maxRetries attempt probed)
        end
    end.
Proof.
  cbn [getHealthyContainer_loop]. cbv zeta.
  unfold mbind, M_bind, try_catch, get_random, fetch_race, sleep, paused,
    emit, mret, M_ret.
  cbn [uuid_calls fetch_calls random_calls trace].
  destruct (getRandom w (random_calls s)) as [container|e].
  - rewrite <- !app_assoc. cbn [app].
    destruct (race _ _ _ _) as [healthCheck|e].
    + destruct (ok healthCheck); reflexivity.
    + destruct (_ <? _)%nat;
        cbn [uuid_calls fetch_calls random_calls trace];
        rewrite <- ?app_assoc; reflexivity.
  - destruct (_ <? _)%nat; reflexivity.
Qed.

Lemma sleeps_app (a b : list (Event Container)) :
  sleeps (a ++ b) = (sleeps a + sleeps b)%nat.
Proof. unfold sleeps. now rewrite List.filter_app, length_app. Qed.

Lemma paused_cases (maxRetries remaining : nat) (s : St Container) :
  (S remaining <= maxRetries)%nat ->
  paused maxRetries (maxRetries - S remaining) s
  = if (0 <? remaining)%nat then emit (EvSleep 1000) s else s.
Proof.
  intros H. unfold paused.
  destruct (0 <? remaining)%nat eqn:Hr.
  - apply Nat.ltb_lt in Hr.
    replace (maxRetries - S remaining <? maxRetries - 1)%nat with true;
      [reflexivity|]. symmetry. apply Nat.ltb_lt. lia.
  - apply Nat.ltb_ge in Hr.
    replace (maxRetries - S remaining <? maxRetries - 1)%nat with false;
      [reflexivity|]. symmetry. apply Nat.ltb_ge. lia.
Qed.

(** An iteration that did not return, followed by the rest of the loop. *)
Lemma healthy_outcome_after (remaining : nat) (s s' : St Container)
    (pre : list (Event Container)) (rs : Res Container * St Container) :
  trace s' = trace s ++ pre ->
  Forall probe_event pre ->
  (sleeps pre <= 1)%nat ->
  (remaining = 0%nat -> sleeps pre = 0%nat) ->
  uuid_calls s' = uuid_calls s ->
  random_calls s' = S (random_calls s) ->
  healthy_outcome w remaining s' rs ->
  healthy_outcome w (S remaining) s rs.
Proof.
  intros Htr Hpre Hs1 Hs0 Hu Hr [evs [Ht [Hev [Hsl [Hu' Hres]]]]].
  exists (pre ++ evs). split; [|split; [|split; [|split]]].
  - now rewrite Ht, Htr, app_assoc.
  - apply Forall_app. now split.
  - rewrite sleeps_app. destruct remaining; [rewrite Hs0 by reflexivity|]; lia.
  - congruence.
  - destruct (fst rs) as [container|e].
    + destruct Hres as [Hb [Hg [pre' [n [t [hc [He Hrest]]]]]]].
      split; [lia|]. split; [exact Hg|].
      exists (pre ++ pre'), n, t, hc. split; [|exact Hrest].
      now rewrite He, app_assoc.
    + destruct Hres as [He Hc]. split; [exact He|]. lia.
Qed.

Lemma probe_event_random : probe_event (Container := Container) EvGetRandom.
Proof. now left. Qed.

Lemma probe_event_fetch (c : Container) :
  probe_event (EvFetch c health_request 2000).
Proof. right. left. now exists c. Qed.

Lemma probe_event_sleep : probe_event (Container := Container) (EvSleep 1000).
Proof. now right; right. Qed.

Ltac probe_events :=
  lazymatch goal with
  | |- Forall _ _ =>
      repeat (apply List.Forall_cons;
              [solve [auto using probe_event_random, probe_event_fetch,
                        probe_event_sleep] |]);
      apply List.Forall_nil
  end.

Ltac loop_rest IH Hle :=
  eapply healthy_outcome_after; [..|apply IH; exact Hle];
  cbn [emit trace uuid_calls random_calls]; try reflexivity;
  first [ probe_events
        | rewrite <- app_assoc; reflexivity
        | cbn; lia
        | match goal with
          | Hr : (0 <? _)%nat = true |- _ => apply Nat.ltb_lt in Hr; lia
          end ].

(** The loop, by induction on the iterations left. *)
Lemma getHealthyContainer_loop_spec (maxRetries : nat) :
  forall (remaining : nat) (s : St Container),
    (remaining <= maxRetries)%nat ->
    healthy_outcome w remaining s
      (getHealthyContainer_loop w maxRetries remaining s).
Proof.
  induction remaining as [|remaining IH]; intros s Hle.
  - exists []. cbn. rewrite app_nil_r.
    repeat split; try reflexivity; try constructor. lia.
  - assert (Hle' : (remaining <= maxRetries)%nat) by lia.
    rewrite getHealthyContainer_step. cbv zeta.
    destruct (getRandom w (random_calls s)) as [container|e] eqn:Hpick.
    + destruct (race _ _ _ _) as [healthCheck|e] eqn:Hrace.
      * destruct (ok healthCheck) eqn:Hok.
        -- apply race_ok_inv in Hrace as [t [Hfate Ht]].
           exists [EvGetRandom; EvFetch container health_request 2000].
           cbn [fst snd trace uuid_calls random_calls fetch_calls].
           split; [reflexivity|]. split.
           { probe_events. }
           split; [cbn; lia|]. split; [reflexivity|]. split; [lia|].
           split.
           { replace (S (random_calls s) - 1)%nat with (random_calls s) by lia.
             exact Hpick. }
           exists [], (fetch_calls s), t, healthCheck. auto.
        -- loop_rest IH Hle'.
      * rewrite paused_cases by exact Hle.
        destruct (0 <? remaining)%nat eqn:Hr; loop_rest IH Hle'.
    + rewrite paused_cases by exact Hle.
      destruct (0 <? remaining)%nat eqn:Hr; loop_rest IH Hle'.
Qed.

(** The container calls of one invocation: none, or the job's stub asked
    for by name and the request sent to it. *)
Lemma fetch_trace (request : Request) (s : St Container) :
  let tr := trace (snd (handler request (forget_trace s))) in
  tr = [] \/
  (exists jobId,
     tr = [EvRandomUUID jobId; EvGetContainer (Some jobId);
           EvFetch (getContainer (Some jobId))
             (clonedRequest request jobId) 25000]) \/
  (exists jobId limit,
     tr = [EvGetContainer jobId; EvFetch (getContainer jobId) request limit]).
Proof.
  cbv zeta.
  destruct (String.eqb_spec (URL_pathname (url request)) "/health") as [Hh|Hh].
  { rewrite fetch_health by exact Hh. now left. }
  destruct (is_upload URL_pathname request) eqn:Hu.
  { rewrite fetch_upload by exact Hu. cbv zeta. right. left.
    exists (randomUUID w (uuid_calls s)).
    destruct (race _ _ _ _); reflexivity. }
  destruct (is_status URL_pathname request) eqn:Hs.
  { rewrite fetch_status by exact Hs. cbv zeta. right. right.
    exists (path_segment (URL_pathname (url request)) "/status/"), 5000%Z.
    destruct (race _ _ _ _); reflexivity. }
  destruct (is_download URL_pathname request) eqn:Hd.
  { rewrite fetch_download by exact Hd. cbv zeta. right. right.
    exists (path_segment (URL_pathname (url request)) "/download/"), 30000%Z.
    destruct (race _ _ _ _); reflexivity. }
  rewrite fetch_other by assumption. now left.
Qed.

(** The loop follows the attempts one by one. *)
Lemma getHealthyContainer_loop_run (maxRetries : nat) :
  forall (remaining : nat) (s : St Container),
    (remaining <= maxRetries)%nat ->
    health_check_run w maxRetries (maxRetries - remaining) s
      (getHealthyContainer_loop w maxRetries remaining s).
Proof.
  induction remaining as [|remaining IH]; intros s Hle.
  - apply run_exhausted. lia.
  - assert (Hle' : (remaining <= maxRetries)%nat) by lia.
    assert (Hnext : (maxRetries - remaining
                     = S (maxRetries - S remaining))%nat) by lia.
    rewrite getHealthyContainer_step. cbv zeta.
    fold (picked s).
    destruct (getRandom w (random_calls s)) as [container|e] eqn:Hpick.
    + fold (probed s container).
      destruct (race _ _ _ _) as [healthCheck|e] eqn:Hrace.
      * pose proof Hrace as Hinv.
        apply race_ok_inv in Hinv as [t [Hfate Ht]].
        rewrite Hfate in Hrace.
        destruct (ok healthCheck) eqn:Hok.
        -- eapply run_healthy; eauto. lia.
        -- eapply run_not_ok; eauto; [lia|].
           rewrite <- Hnext. now apply IH.
      * rewrite paused_cases by exact Hle.
        destruct (0 <? remaining)%nat eqn:Hr.
        -- apply Nat.ltb_lt in Hr.
           eapply run_probe_threw_paused; eauto; [lia|].
           rewrite <- Hnext. now apply IH.
        -- apply Nat.ltb_ge in Hr.
           eapply run_probe_threw_last; eauto; [lia|].
           rewrite <- Hnext. now apply IH.
    + rewrite paused_cases by exact Hle.
      destruct (0 <? remaining)%nat eqn:Hr.
      * apply Nat.ltb_lt in Hr.
        eapply run_pick_threw_paused; eauto; [lia|].
        rewrite <- Hnext. now apply IH.
      * apply Nat.ltb_ge in Hr.
        eapply run_pick_threw_last; eauto; [lia|].
        rewrite <- Hnext. now apply IH.
Qed.

(** The attempts leave no choice: a run has one result and one final
    state. *)
Lemma health_check_run_functional (maxRetries attempt : nat)
    (s : St Container) (rs1 rs2 : Res Container * St Container) :
  health_check_run w maxRetries attempt s rs1 ->
  health_check_run w maxRetries attempt s rs2 ->
  rs1 = rs2.
Proof.
  intros H1. revert rs2.
  induction H1; intros rs2 Hrun; inversion Hrun; subst;
    repeat match goal with
           | Ha : ?x = _, Hb : ?x = _ |- _ => rewrite Ha in Hb
           | H : Ok _ = Ok _ |- _ => injection H as ?; subst
           | H : Resolves _ _ = Resolves _ _ |- _ => injection H as ? ?; subst
           end;
    try congruence; try lia; eauto.
Qed.

(** C2, as the code has it: no route performs a health check.  The
    /health route and the requests outside the routes contact nothing; an
    upload draws its id, asks getContainer for the stub of that id and
    sends the rebuilt request to it against a 25 s timer; a status or
    download request asks getContainer for the stub of the id in its path
    and is sent to it against a 5 s or 30 s timer; these are all the events
    of the invocation.  The helper getHealthyContainer is not called by the
    handler; run with its default of 3 retries it makes the attempts
    described by [health_check_run]: at most 3, each a random pick probed
    against a 2 s timer, with a pause of 1 s only after an attempt that
    threw and is not the last, returning only a container whose probe was
    answered ok within 2 s, and throwing "No healthy container available"
    after the third failed attempt. *)
Theorem routing_without_probe :
  (forall (request : Request) (s : St Container),
     let tr := trace (snd (handler request (forget_trace s))) in
     let jobId := randomUUID w (uuid_calls s) in
     (URL_pathname (url request) = "/health" -> tr = []) /\
     (is_upload URL_pathname request = true ->
      tr = [EvRandomUUID jobId; EvGetContainer (Some jobId);
            EvFetch (getContainer (Some jobId))
              (clonedRequest request jobId) 25000]) /\
     (is_status URL_pathname request = true ->
      tr = [EvGetContainer
              (path_segment (URL_pathname (url request)) "/status/");
            EvFetch
              (getContainer
                 (path_segment (URL_pathname (url request)) "/status/"))
              request 5000]) /\
     (is_download URL_pathname request = true ->
      tr = [EvGetContainer
              (path_segment (URL_pathname (url request)) "/download/");
            EvFetch
              (getContainer
                 (path_segment (URL_pathname (url request)) "/download/"))
              request 30000]) /\
     (URL_pathname (url request) <> "/health" ->
      is_upload URL_pathname request = false ->
      is_status URL_pathname request = false ->
      is_download URL_pathname request = false ->
      tr = [])) /\
  (forall (s : St Container) rs,
     health_check_run w 3 0 s rs <-> rs = getHealthyContainer w 3 s) /\
  (forall s : St Container,
     healthy_outcome w 3 s (getHealthyContainer w 3 s)).
Proof.
  split; [|split].
  - intros request s. cbv zeta. split; [|split; [|split; [|split]]].
    + intros Hh. now rewrite fetch_health by exact Hh.
    + intros Hu. rewrite fetch_upload by exact Hu. cbv zeta.
      destruct (race _ _ _ _); reflexivity.
    + intros Hs. rewrite fetch_status by exact Hs. cbv zeta.
      destruct (race _ _ _ _); reflexivity.
    + intros Hd. rewrite fetch_download by exact Hd. cbv zeta.
      destruct (race _ _ _ _); reflexivity.
    + intros Hh Hu Hs Hd. now rewrite fetch_other by assumption.
  - intros s rs.
    assert (Hrun : health_check_run w 3 0 s (getHealthyContainer w 3 s)).
    { unfold getHealthyContainer.
      exact (getHealthyContainer_loop_run 3 3 s (Nat.le_refl 3)). }
    split.
    + intros H. exact (health_check_run_functional 3 0 s _ _ H Hrun).
    + intros ->. exact Hrun.
  - intros s. unfold getHealthyContainer.
    apply getHealthyContainer_loop_spec. lia.
Qed.

End Routes.

(** ** Evaluation on concrete worlds *)

Lemma health_is_constant_witness :
  fetch demo_getContainer demo_pathname silent_world demo_health initial
  = (Ok (mkResponse 200 [("Content-Type", "application/json")]
           ("{" +:+ JS.quoted "status" +:+ ":" +:+ JS.quoted "ok" +:+ "}")),
     initial).
Proof.
  apply (health_is_constant demo_getContainer demo_pathname silent_world
           demo_health initial).
  reflexivity.
Defined.

Lemma routing_without_probe_witness :
  trace (snd (fetch demo_getContainer demo_pathname prompt_world demo_upload
                (forget_trace initial)))
  = [EvRandomUUID "0b5e1c1e-0000-4000-8000-000000000001";
     EvGetContainer (Some "0b5e1c1e-0000-4000-8000-000000000001");
     EvFetch "0b5e1c1e-0000-4000-8000-000000000001"
       (clonedRequest demo_upload "0b5e1c1e-0000-4000-8000-000000000001")
       25000].
Proof.
  exact (proj1 (proj2 (proj1 (routing_without_probe demo_getContainer
                                demo_pathname prompt_world)
                         demo_upload initial)) eq_refl).
Defined.

Lemma upload_failure_classified_witness :
  exists response,
    fst (fetch demo_getContainer demo_pathname refused_world demo_upload
           initial) = Ok response /\
    status response = 500%Z /\
    resp_body response
    = JS.stringify
        (JS.JObject
           [("error", JS.JString "Upload failed");
            ("details", JS.JString "Network connection lost.")]).
Proof.
  destruct (upload_failure_classified demo_getContainer demo_pathname
              refused_world demo_upload initial
              (ErrorObj "Error" "Network connection lost.")
              eq_refl eq_refl)
    as [response [Hr [_ [_ [_ [Hno _]]]]]].
  exists response. split; [exact Hr|].
  apply Hno. intros Ht. apply JSFacts.includes_spec in Ht.
  vm_compute in Ht. discriminate Ht.
Defined.



Lemma job_affinity_witness :
  trace (snd (fetch demo_getContainer demo_pathname prompt_world demo_upload
                (forget_trace initial)))
  = [EvRandomUUID "0b5e1c1e-0000-4000-8000-000000000001";
     EvGetContainer (Some "0b5e1c1e-0000-4000-8000-000000000001");
     EvFetch "0b5e1c1e-0000-4000-8000-000000000001"
       (clonedRequest demo_upload "0b5e1c1e-0000-4000-8000-000000000001")
       25000] /\
  trace (snd (fetch demo_getContainer demo_pathname prompt_world demo_status
                (forget_trace initial)))
  = [EvGetContainer (Some "0b5e1c1e-0000-4000-8000-000000000001");
     EvFetch "0b5e1c1e-0000-4000-8000-000000000001" demo_status 5000] /\
  trace (snd (fetch demo_getContainer demo_pathname prompt_world
                demo_download (forget_trace initial)))
  = [EvGetContainer (Some "0b5e1c1e-0000-4000-8000-000000000001");
     EvFetch "0b5e1c1e-0000-4000-8000-000000000001" demo_download 30000].
Proof.
  exact (job_affinity demo_getContainer demo_pathname prompt_world
           "0b5e1c1e-0000-4000-8000-000000000001"
           demo_upload demo_status demo_download initial initial initial
           eq_refl eq_refl eq_refl eq_refl eq_refl eq_refl eq_refl eq_refl).
Defined.

Lemma distinct_job_ids_witness :
  omap (fun x => generated_job_id (snd x))
    (serve demo_getContainer demo_pathname prompt_world
       [demo_upload; demo_upload] initial)
  = ["0b5e1c1e-0000-4000-8000-000000000001";
     "0b5e1c1e-0000-4000-8000-000000000002"] /\
  "0b5e1c1e-0000-4000-8000-000000000001"
  <> "0b5e1c1e-0000-4000-8000-000000000002".
Proof.
  assert (Hfresh :
    NoDup (map (randomUUID prompt_world)
             (seq (uuid_calls initial)
                (count_uploads demo_pathname [demo_upload; demo_upload])))).
  { apply (bool_decide_unpack _). vm_compute. exact I. }
  split; [reflexivity|].
  eapply (proj2 (distinct_job_ids demo_getContainer demo_pathname
                   prompt_world [demo_upload; demo_upload] initial Hfresh)
            0%nat 1%nat); [lia | reflexivity..].
Defined.

(** C2 as stated fails: the upload is sent to the job's stub without any
    probe of that stub before it. *)
Lemma upload_is_routed_unprobed :
  ~ probed_before_routing
      (trace (snd (fetch demo_getContainer demo_pathname prompt_world
                     demo_upload initial))).
Proof.
  intros H.
  destruct (H 2%nat "0b5e1c1e-0000-4000-8000-000000000001"
              (clonedRequest demo_upload
                 "0b5e1c1e-0000-4000-8000-000000000001")
              25000%Z eq_refl) as [j [limit' [Hj Hl]]].
  { intros E. discriminate E. }
  destruct j as [|[|j]]; [discriminate Hl | discriminate Hl | lia].
Qed.

(** C9 at an upload that already carries an X-Job-Id header: the fresh id
    is generated, no header is added, and the header the container receives
    is the client's value followed by the fresh id. *)
Theorem client_job_id_is_merged :
  let tr := trace (snd (fetch demo_getContainer demo_pathname prompt_world
                          demo_upload_with_id initial)) in
  generated_job_id tr = Some "0b5e1c1e-0000-4000-8000-000000000001" /\
  JS.get (headers demo_upload_with_id) "X-Job-Id" = Some "evil" /\
  exists sent,
    forwarded tr = Some sent /\
    length (JS.entries (headers sent))
    = length (JS.entries (headers demo_upload_with_id)) /\
    JS.get (headers sent) "X-Job-Id"
    = Some "evil, 0b5e1c1e-0000-4000-8000-000000000001".
Proof.
  cbv zeta. split; [reflexivity|]. split; [reflexivity|].
  eexists. split; [reflexivity|]. split; reflexivity.
Qed.

End WorkerFacts.

(* ===================================================================== *)
(** * Facts about the conversion core                                     *)
(* ===================================================================== *)

Module CoreFacts.
Import Core.

Lemma parsed_progress_le (processed total : Z) :
  (parsed_progress processed total <= 99)%Z.
Proof. unfold parsed_progress. apply Z.le_min_l. Qed.

(** What the snapshot published for the i-th event looks like, as long as
    the task started on a [Processing] job below 100. *)
Lemma task_snapshots_event (bound : nat) (total : Z) (out : string)
    (evs : list EncoderEvent) :
  forall (j0 : Job) (i : nat) (j : Job),
    status j0 = Processing ->
    (progress j0 <= 99)%Z ->
    task_snapshots bound total out evs j0 !! i = Some j ->
    exists ev,
      evs !! i = Some ev /\
      match ev with
      | StatusLine processed =>
          status j = Processing /\
          progress j = parsed_progress processed total
      | Sampled _ => status j = Processing /\ (progress j <= 99)%Z
      | Exited code output_bytes _ =>
          if (code =? 0)%Z && (0 <? output_bytes)%Z
          then status j = Complete /\ progress j = 100%Z
          else status j = Failed /\ (progress j <= 99)%Z
      end.
Proof.
  induction evs as [|ev rest IH]; intros j0 i j Hs Hp H; [discriminate|].
  cbn [task_snapshots] in H. destruct i as [|i].
  - injection H as <-. exists ev. split; [reflexivity|].
    destruct ev as [processed|[c|]|code output_bytes diagnostic];
      cbn [publish]; auto.
    destruct ((code =? 0)%Z && (0 <? output_bytes)%Z); cbn; auto.
  - cbn [lookup list_lookup] in H.
    destruct ev as [processed|color|code output_bytes diagnostic].
    + apply IH in H; [exact H | exact Hs |].
      cbn. apply parsed_progress_le.
    + apply IH in H; [exact H | |]; destruct color; cbn; assumption.
    + destruct i; discriminate H.
Qed.

(** A snapshot that has a successor is [Processing]. *)
Lemma task_snapshots_successor (bound : nat) (total : Z) (out : string)
    (evs : list EncoderEvent) :
  forall (j0 : Job) (k : nat) (a b : Job),
    status j0 = Processing ->
    (j0 :: task_snapshots bound total out evs j0) !! k = Some a ->
    (j0 :: task_snapshots bound total out evs j0) !! S k = Some b ->
    status a = Processing.
Proof.
  induction evs as [|ev rest IH]; intros j0 k a b Hs Ha Hb.
  - destruct k; discriminate Hb.
  - destruct k as [|k].
    + injection Ha as <-. exact Hs.
    + cbn [task_snapshots] in Ha, Hb.
      change ((publish bound total out ev j0
               :: match ev with
                  | Exited _ _ _ => []
                  | _ => task_snapshots bound total out rest
                           (publish bound total out ev j0)
                  end) !! k = Some a) in Ha.
      change ((publish bound total out ev j0
               :: match ev with
                  | Exited _ _ _ => []
                  | _ => task_snapshots bound total out rest
                           (publish bound total out ev j0)
                  end) !! S k = Some b) in Hb.
      destruct ev as [processed|color|code output_bytes diagnostic].
      * eapply IH; [|exact Ha|exact Hb]. exact Hs.
      * eapply IH; [|exact Ha|exact Hb]. destruct color; exact Hs.
      * destruct k; discriminate Hb.
Qed.

(** C5: with the job created at progress 0, every snapshot the
    orchestrator publishes for a status line of the encoder is
    [Processing] with progress min(99, floor(100 * processed / total)); a
    published snapshot has progress 100 exactly when it is the [Complete]
    one, and that one is published for the exit of the subprocess with
    code 0 and a non-empty output. *)
Theorem progress_published (bound : nat) (probe : Probe) (out : string)
    (evs : list EncoderEvent) (j0 : Job) :
  status j0 = Processing ->
  progress j0 = 0%Z ->
  (forall (i : nat) processed total j,
     probe = Probed total ->
     evs !! i = Some (StatusLine processed) ->
     orchestrate bound probe out evs j0 !! i = Some j ->
     status j = Processing /\
     progress j = Z.min 99 (100 * processed / total)) /\
  (forall (i : nat) j,
     orchestrate bound probe out evs j0 !! i = Some j ->
     (progress j = 100%Z <-> status j = Complete) /\
     (status j = Complete ->
      exists output_bytes diagnostic,
        evs !! i = Some (Exited 0 output_bytes diagnostic) /\
        (0 < output_bytes)%Z)).
Proof.
  intros Hs Hp.
  assert (Hle : (progress j0 <= 99)%Z) by lia.
  split.
  - intros i processed total j -> Hev H. cbn [orchestrate] in H.
    destruct (task_snapshots_event bound total out evs j0 i j Hs Hle H)
      as [ev [Hev' Hj]].
    rewrite Hev in Hev'. injection Hev' as <-. exact Hj.
  - intros i j H. destruct probe as [diagnostic|total]; cbn [orchestrate] in H.
    + destruct i as [|i]; [|destruct i; discriminate H].
      injection H as <-. cbn. split; [split|]; intros E; [lia | |];
        discriminate E.
    + destruct (task_snapshots_event bound total out evs j0 i j Hs Hle H)
        as [ev [Hev Hj]].
      destruct ev as [processed|color|code output_bytes diagnostic].
      * destruct Hj as [Hst Hpr].
        pose proof (parsed_progress_le processed total).
        split; [split|]; intros E; [lia | |]; congruence.
      * destruct Hj as [Hst Hpr].
        split; [split|]; intros E; [lia | |]; congruence.
      * destruct ((code =? 0)%Z && (0 <? output_bytes)%Z) eqn:Hok.
        -- destruct Hj as [Hst Hpr]. split; [split; auto|].
           intros _. apply andb_true_iff in Hok as [Hc Hb].
           apply Z.eqb_eq in Hc. apply Z.ltb_lt in Hb. subst code.
           eauto.
        -- destruct Hj as [Hst Hpr].
           split; [split|]; intros E; [lia | |]; congruence.
Qed.

(** ** The process as a whole *)

Lemma delivered_lookup (i' i : string) (reg : gmap string Job) (j : Job) :
  snd (fetch_output i' reg) !! i = Some j -> reg !! i = Some j.
Proof.
  unfold fetch_output, get, remove.
  destruct (reg !! i') as [j'|]; [|exact (fun H => H)].
  destruct (status j'); cbn [snd]; try exact (fun H => H).
  intros H. apply lookup_delete_Some in H as [_ H]. exact H.
Qed.

Lemma swept_lookup (retention now : Z) (i : string) (reg : gmap string Job)
    (j : Job) :
  sweep retention now reg !! i = Some j -> reg !! i = Some j.
Proof. unfold sweep. intros H. now apply map_lookup_filter_Some in H. Qed.

Lemma created_lookup (i' : string) (opts : Options) (input : string)
    (now : Z) (reg : gmap string Job) (i : string) (j : Job) :
  reg !! i = Some j -> create i' opts input now reg !! i = Some j.
Proof.
  intros H. unfold create. destruct (reg !! i') eqn:Hi'; [exact H|].
  rewrite lookup_insert_ne; [exact H | congruence].
Qed.

(** One operation, seen from one record: the record is removed, or left
    as it is, or it is [Processing], its task is running, and the task
    publishes a failure of the probe or the mutation of an encoder event. *)
Lemma step_record (op : Op) (sys : System) (i : string) (j : Job) :
  registry sys !! i = Some j ->
  registry (step op sys) !! i = None \/
  registry (step op sys) !! i = Some j \/
  exists task,
    running sys !! i = Some task /\
    ((exists diagnostic,
        registry (step op sys) !! i
        = Some (mark_failed (task_bound task) diagnostic j)) \/
     (exists total ev,
        task_total task = Some total /\
        registry (step op sys) !! i
        = Some (publish (task_bound task) total (task_out task) ev j))).
Proof.
  intros Hj.
  destruct op as [i' opts input now bound out|i' probe|i' ev|i'|i'
                 |retention now]; cbn [step].
  - right. left. destruct (decide (i' ∈ issued sys)); [exact Hj|].
    cbn [registry]. now apply created_lookup.
  - destruct (running sys !! i') as [[bound out [total|]]|] eqn:Ht;
      try (right; left; exact Hj).
    destruct probe as [diagnostic|total]; cbn [registry];
      [|right; left; exact Hj].
    unfold update. destruct (decide (i' = i)) as [->|Hne].
    + right. right. exists (mkTask bound out None). split; [exact Ht|].
      left. exists diagnostic. rewrite lookup_alter_eq, Hj. reflexivity.
    + right. left. rewrite lookup_alter_ne by exact Hne. exact Hj.
  - destruct (running sys !! i') as [[bound out [total|]]|] eqn:Ht;
      try (right; left; exact Hj).
    cbn [registry]. unfold update. destruct (decide (i' = i)) as [->|Hne].
    + right. right. exists (mkTask bound out (Some total)).
      split; [exact Ht|]. right. exists total, ev.
      rewrite lookup_alter_eq, Hj. split; reflexivity.
    + right. left. rewrite lookup_alter_ne by exact Hne. exact Hj.
  - right. left. exact Hj.
  - cbn [registry].
    destruct (snd (fetch_output i' (registry sys)) !! i) as [j'|] eqn:H;
      [|now left].
    right. left. apply delivered_lookup in H. congruence.
  - cbn [registry].
    destruct (sweep retention now (registry sys) !! i) as [j'|] eqn:H;
      [|now left].
    right. left. apply swept_lookup in H. congruence.
Qed.

Lemma consistent_empty : consistent empty_system.
Proof. split; intros *; cbn; intros H; now rewrite lookup_empty in H. Qed.

Lemma publish_keeps_processing (bound : nat) (total : Z) (out : string)
    (ev : EncoderEvent) (j : Job) :
  status j = Processing ->
  (forall code output_bytes diagnostic,
     ev <> Exited code output_bytes diagnostic) ->
  status (publish bound total out ev j) = Processing.
Proof.
  intros Hs Hev.
  destruct ev as [processed|[c|]|code output_bytes diagnostic]; cbn;
    try exact Hs.
  now destruct (Hev code output_bytes diagnostic).
Qed.

(** Every operation keeps a consistent state consistent. *)
Lemma consistent_step (op : Op) (sys : System) :
  consistent sys -> consistent (step op sys).
Proof.
  intros [Hissued Hproc].
  destruct op as [i' opts input now bound out|i' probe|i' ev|i'|i'
                 |retention now]; cbn [step].
  - destruct (decide (i' ∈ issued sys)) as [Hin|Hin]; [now split|].
    assert (Hfree : registry sys !! i' = None).
    { destruct (registry sys !! i') eqn:H; [|reflexivity].
      now apply Hissued in H. }
    split; cbn [registry running issued]; unfold create; rewrite Hfree.
    + intros i j H. apply elem_of_union.
      destruct (decide (i' = i)) as [->|Hne].
      * left. now apply elem_of_singleton.
      * right. rewrite lookup_insert_ne in H by exact Hne. eauto.
    + intros i task j Ht Hj. destruct (decide (i' = i)) as [->|Hne].
      * rewrite lookup_insert_eq in Hj. now injection Hj as <-.
      * rewrite lookup_insert_ne in Ht by exact Hne.
        rewrite lookup_insert_ne in Hj by exact Hne. eauto.
  - destruct (running sys !! i') as [[bound out [total|]]|] eqn:Hrun;
      try (now split).
    destruct probe as [diagnostic|total];
      split; cbn [registry running issued]; unfold update.
    + intros i j H. destruct (decide (i' = i)) as [->|Hne].
      * rewrite lookup_alter_eq in H.
        destruct (registry sys !! i) eqn:Hi; [eauto | discriminate H].
      * rewrite lookup_alter_ne in H by exact Hne. eauto.
    + intros i task j Ht Hj. destruct (decide (i' = i)) as [->|Hne].
      * now rewrite lookup_delete_eq in Ht.
      * rewrite lookup_delete_ne in Ht by exact Hne.
        rewrite lookup_alter_ne in Hj by exact Hne. eauto.
    + exact Hissued.
    + intros i task j Ht Hj. destruct (decide (i' = i)) as [->|Hne].
      * eauto.
      * rewrite lookup_insert_ne in Ht by exact Hne. eauto.
  - destruct (running sys !! i') as [[bound out [total|]]|] eqn:Hrun;
      try (now split).
    split; cbn [registry running issued]; unfold update.
    + intros i j H. destruct (decide (i' = i)) as [->|Hne].
      * rewrite lookup_alter_eq in H.
        destruct (registry sys !! i) eqn:Hi; [eauto | discriminate H].
      * rewrite lookup_alter_ne in H by exact Hne. eauto.
    + intros i task j Ht Hj. destruct (decide (i' = i)) as [->|Hne].
      * rewrite lookup_alter_eq in Hj.
        destruct (registry sys !! i) as [j0|] eqn:Hi; [|discriminate Hj].
        injection Hj as <-.
        pose proof (Hproc i _ j0 Hrun Hi) as Hs.
        destruct ev as [processed|[c|]|code output_bytes diagnostic];
          try exact Hs.
        now rewrite lookup_delete_eq in Ht.
      * rewrite lookup_alter_ne in Hj by exact Hne.
        assert (Ht' : running sys !! i = Some task).
        { destruct ev; try exact Ht.
          now rewrite lookup_delete_ne in Ht by exact Hne. }
        eauto.
  - now split.
  - split; cbn [registry running issued].
    + intros i j H. apply delivered_lookup in H. eauto.
    + intros i task j Ht Hj. apply delivered_lookup in Hj. eauto.
  - split; cbn [registry running issued].
    + intros i j H. apply swept_lookup in H. eauto.
    + intros i task j Ht Hj. apply swept_lookup in Hj. eauto.
Qed.

(** Every state reached from a consistent one is consistent. *)
Lemma consistent_run (ops : list Op) :
  forall sys, consistent sys -> consistent (run ops sys).
Proof.
  unfold run. induction ops as [|op ops IH]; intros sys H; [exact H|].
  cbn [fold_left]. apply IH. now apply consistent_step.
Qed.

(** C6: in every state the process reaches from its start by any history
    of submissions, probe results, encoder events, status reads, fetches
    and sweeps, and for every further operation: a job that is [Complete]
    or [Failed] keeps its record identical, unless the operation removes the
    record from the registry; and a record whose status changes was
    [Processing] and becomes [Complete] or [Failed]. *)
Theorem terminal_is_final (ops : list Op) (op : Op) (i : string) (j : Job) :
  registry (run ops empty_system) !! i = Some j ->
  (terminal (status j) = true ->
   registry (step op (run ops empty_system)) !! i = Some j \/
   registry (step op (run ops empty_system)) !! i = None) /\
  (forall j',
     registry (step op (run ops empty_system)) !! i = Some j' ->
     status j' <> status j ->
     status j = Processing /\
     (status j' = Complete \/ status j' = Failed)).
Proof.
  intros Hj.
  pose proof (consistent_run ops _ consistent_empty) as [_ Hproc].
  assert (Hmut : forall task,
            running (run ops empty_system) !! i = Some task ->
            status j = Processing) by eauto.
  destruct (step_record op _ i j Hj) as [Hn | [Hs | [task [Ht _]]]].
  - split; [now right|]. intros j' Hj'. congruence.
  - split; [now left|]. intros j' Hj' Hne. congruence.
  - pose proof (Hmut task Ht) as Hp. split.
    + intros Hterm. rewrite Hp in Hterm. discriminate Hterm.
    + intros j' Hj' Hne. split; [exact Hp|].
      rewrite Hp in Hne. destruct (status j'); [contradiction|now left|now right].
Qed.


(** An id that was removed, delivered or swept is unknown again. *)
Lemma removed_is_unknown (i : string) (reg : gmap string Job) :
  api_status i (remove i reg) = inl NotFound.
Proof. unfold api_status, get, remove. now rewrite lookup_delete_eq. Qed.

Lemma delivered_is_unknown (i : string) (reg : gmap string Job) (j : Job) :
  fetch_output i reg = (inr j, snd (fetch_output i reg)) ->
  api_status i (snd (fetch_output i reg)) = inl NotFound.
Proof.
  unfold fetch_output, get. destruct (reg !! i) as [j'|]; [|discriminate].
  destruct (status j'); try discriminate. intros _. cbn [snd].
  apply removed_is_unknown.
Qed.

Lemma swept_is_unknown (i : string) (reg : gmap string Job) (j : Job)
    (retention now : Z) :
  reg !! i = Some j ->
  (created_at j + retention <= now)%Z ->
  api_status i (sweep retention now reg) = inl NotFound.
Proof.
  intros Hj Hold. unfold api_status, get, sweep.
  rewrite (proj2 (map_lookup_filter_None _ _ _)); [reflexivity|].
  right. intros j' Hj'. rewrite Hj in Hj'. injection Hj' as <-. cbn. lia.
Qed.

(** The core's answer for an unknown id. *)
Lemma unknown_is_not_found (i : string) (reg : gmap string Job) :
  get i reg = None ->
  api_status i reg = inl NotFound /\
  fetch_output i reg = (inl NotFound, reg).
Proof. intros H. unfold api_status, fetch_output. now rewrite H. Qed.

Example demo_run :
  map (fun j => (status j, progress j))
    (orchestrate 200 (Probed 2000000) "/tmp/conversions/job-1.webm"
       demo_events demo_job)
  = [(Processing, 25%Z); (Processing, 25%Z); (Processing, 99%Z);
     (Complete, 100%Z)].
Proof. reflexivity. Qed.

Example demo_run_ends_done :
  last (orchestrate 200 (Probed 2000000) "/tmp/conversions/job-1.webm"
          demo_events demo_job) = Some demo_done.
Proof. reflexivity. Qed.

Lemma progress_published_witness :
  orchestrate 200 (Probed 2000000) "/tmp/conversions/job-1.webm"
    demo_events demo_job !! 2%nat
  = Some (set_progress 99 (set_color "0x0BB600" (set_progress 25 demo_job)))
  /\
  status (set_progress 99 (set_color "0x0BB600" (set_progress 25 demo_job)))
  = Processing /\
  progress (set_progress 99 (set_color "0x0BB600" (set_progress 25 demo_job)))
  = Z.min 99 (100 * 2000000 / 2000000).
Proof.
  split; [reflexivity|].
  exact (proj1 (progress_published 200 (Probed 2000000)
                  "/tmp/conversions/job-1.webm" demo_events demo_job
                  eq_refl eq_refl)
           2%nat 2000000%Z 2000000%Z _ eq_refl eq_refl eq_refl).
Defined.

Example demo_history_ends_done :
  registry (run demo_history empty_system) !! "job-1" = Some demo_done.
Proof. vm_compute. reflexivity. Qed.

Lemma terminal_is_final_witness :
  registry (step (Encoder "job-1" (StatusLine 1))
              (run demo_history empty_system)) !! "job-1" = Some demo_done \/
  registry (step (Encoder "job-1" (StatusLine 1))
              (run demo_history empty_system)) !! "job-1" = None.
Proof.
  apply (terminal_is_final demo_history (Encoder "job-1" (StatusLine 1))
           "job-1" demo_done).
  - vm_compute. reflexivity.
  - reflexivity.
Defined.

End CoreFacts.

(* ===================================================================== *)
(** * The worker in front of the core                                     *)
(* ===================================================================== *)

Module SystemFacts.
Import Worker.

Section Unknown.

Context {Container : Type}.
Context (getContainer : option string -> Container).
Context (URL_pathname : string -> string).
Context (w : World Container).

Local Abbreviation handler := (fetch getContainer URL_pathname w).

Lemma race_in_time (tie : bool) (t limit : Z) (r : Response)
    (label : string) :
  (t < limit)%Z -> race tie (Resolves t r) limit label = Ok r.
Proof.
  intros H. cbn [race].
  now rewrite (WorkerFacts.race_settled_first _ _ _ label H).
Qed.

Lemma race_throws (tie : bool) (p : Settle) (limit : Z) (label : string) :
  settles_after limit p \/ (exists t e, p = Rejects t e) ->
  exists e, race tie p limit label = Throw e.
Proof.
  intros [H | [t [e ->]]].
  - rewrite (WorkerFacts.race_timer_first _ _ _ label H). eauto.
  - cbn [race]. destruct (settles_before tie t limit); eauto.
Qed.

Lemma strip_prefix_app (prefix rest : string) :
  Core.strip_prefix prefix (prefix +:+ rest) = Some rest.
Proof.
  induction prefix as [|a prefix IH]; [reflexivity|].
  change (String a prefix +:+ rest) with (String a (prefix +:+ rest)).
  cbn [Core.strip_prefix]. now rewrite Ascii.eqb_refl.
Qed.

(** The server's answer to a status or download request for an id the
    registry does not hold. *)
Lemma http_reply_unknown (render : Core.ApiError + Core.Job -> JS.Headers * string)
    (reg : gmap string Core.Job) (i : string) (download : bool) :
  Core.get i reg = None ->
  Core.http_reply render reg
    ((if download then "/download/" else "/status/") +:+ i)
  = Some (mkResponse 404 (fst (render (inl Core.NotFound)))
            (snd (render (inl Core.NotFound)))).
Proof.
  intros Hi. unfold Core.http_reply. destruct download.
  - change (Core.strip_prefix "/status/" ("/download/" +:+ i)) with (@None string).
    rewrite strip_prefix_app.
    now rewrite (proj2 (CoreFacts.unknown_is_not_found i reg Hi)).
  - rewrite strip_prefix_app.
    now rewrite (proj1 (CoreFacts.unknown_is_not_found i reg Hi)).
Qed.

(** C7, as the code has it: a GET of /status/<id> or /download/<id> for an
    id the registry does not hold is forwarded as it is; the server's
    answer to it is NotFound, HTTP 404, built from no job record; the
    worker returns that answer unchanged when it arrives before the route's
    timer (5 s for status, 30 s for download), so the caller receives the
    404; when the forwarding is rejected or nothing has arrived when the
    timer fires, the worker answers 500 with the error text "Failed to
    check status" or "Failed to download video" instead. *)
Theorem unknown_job_answer
    (render : Core.ApiError + Core.Job -> JS.Headers * string)
    (reg : gmap string Core.Job) (i : string) (download : bool)
    (request : Request) (s : St Container) :
  Core.get i reg = None ->
  URL_pathname (url request)
  = (if download then "/download/" else "/status/") +:+ i ->
  method request = "GET" ->
  let limit := if download then 30000%Z else 5000%Z in
  let failure :=
    if download then "Failed to download video"
    else "Failed to check status" in
  let fate := containerFetch w (fetch_calls s) in
  exists reply,
    forwarded (trace (snd (handler request (forget_trace s))))
    = Some request /\
    Core.http_reply render reg (URL_pathname (url request)) = Some reply /\
    reply = mkResponse 404 (fst (render (inl Core.NotFound)))
              (snd (render (inl Core.NotFound))) /\
    (forall t,
       fate = Resolves t reply -> (t < limit)%Z ->
       fst (handler request s) = Ok reply /\
       status reply = 404%Z) /\
    (settles_after limit fate \/ (exists t e, fate = Rejects t e) ->
     exists details,
       fst (handler request s)
       = Ok (json_response 500
               (JS.JObject
                  [("error", JS.JString failure);
                   ("details", JS.JString details)]))).
Proof.
  intros Hi Hpath Hm limit failure fate.
  exists (mkResponse 404 (fst (render (inl Core.NotFound)))
            (snd (render (inl Core.NotFound)))).
  rewrite Hpath. rewrite (http_reply_unknown render reg i download Hi).
  subst limit failure fate. destruct download.
  - assert (Hd : is_download URL_pathname request = true)
      by eauto using WorkerFacts.download_path_is_download.
    rewrite !WorkerFacts.fetch_download by exact Hd. cbv zeta.
    split; [destruct (race _ _ _ _); reflexivity|].
    split; [reflexivity|]. split; [reflexivity|]. split.
    + intros t -> Ht. rewrite race_in_time by exact Ht.
      split; reflexivity.
    + intros H.
      destruct (race_throws (fetch_wins_tie w) _ 30000
                  "Download timeout" H) as [e ->].
      eexists. reflexivity.
  - assert (Hs : is_status URL_pathname request = true)
      by eauto using WorkerFacts.status_path_is_status.
    rewrite !WorkerFacts.fetch_status by exact Hs. cbv zeta.
    split; [destruct (race _ _ _ _); reflexivity|].
    split; [reflexivity|]. split; [reflexivity|]. split.
    + intros t -> Ht. rewrite race_in_time by exact Ht.
      split; reflexivity.
    + intros H.
      destruct (race_throws (fetch_wins_tie w) _ 5000
                  "Status check timeout" H) as [e ->].
      eexists. reflexivity.
Qed.

End Unknown.

Lemma unknown_job_answer_witness :
  fst (fetch demo_getContainer demo_pathname unknown_job_world demo_status
         initial) = Ok not_found_404 /\
  status not_found_404 = 404%Z.
Proof.
  destruct (unknown_job_answer demo_getContainer demo_pathname
              unknown_job_world Core.demo_render ∅
              "0b5e1c1e-0000-4000-8000-000000000001" false
              demo_status initial (lookup_empty _) eq_refl eq_refl)
    as [reply [_ [_ [-> [Hin _]]]]].
  exact (Hin 120%Z eq_refl eq_refl).
Defined.

(** C7 as stated fails: the status request for an id the registry does
    not hold is answered 500 when the container stays silent. *)
Lemma unknown_job_with_silent_container :
  Core.api_status "0b5e1c1e-0000-4000-8000-000000000001" ∅
  = inl Core.NotFound /\
  ~ answers_404 demo_getContainer demo_pathname silent_world demo_status
      initial.
Proof.
  split; [reflexivity|].
  intros [response [Hr Hs]].
  vm_compute in Hr. injection Hr as <-. discriminate Hs.
Qed.

End SystemFacts.

(* ===================================================================== *)
(** * Further facts about the worker                                      *)
(* ===================================================================== *)

Module WorkerExtras.
Import Worker.

#[local] Arguments String.append !s1 s2 : simpl nomatch.

(** ** The path segment *)

Lemma split_go_cons (sep : string) (s : string) :
  forall (skip : nat) (cur : string),
    exists x l, JS.split_go sep skip cur s = x :: l.
Proof.
  induction s as [|c s IH]; intros skip cur; cbn [JS.split_go]; [eauto|].
  destruct skip as [|k]; [|apply IH].
  destruct (JS.startsWith (String c s) sep); [eauto | apply IH].
Qed.

(** Behind a path that starts with the separator, [split(sep)[1]] is a
    string. *)
Lemma path_segment_defined (pathname : string) (c : ascii) (sep' : string) :
  JS.startsWith pathname (String c sep') = true ->
  exists jobId, path_segment pathname (String c sep') = Some jobId.
Proof.
  intros H. unfold path_segment, JS.split.
  destruct pathname as [|b rest]; [discriminate H|].
  cbn [JS.split_go]. rewrite H.
  destruct (split_go_cons (String c sep') rest
              (String.length (String c sep') - 1) EmptyString) as [x [l ->]].
  now exists x.
Qed.

(** ** The forwarded headers *)

Lemma entries_assoc_last_plain (h : JS.Headers) (n : string) :
  JS.toLowerCase n = n ->
  n <> "set-cookie" ->
  JS.assoc_last (JS.entries h) n = JS.get h n.
Proof.
  intros Hn Hne. unfold JS.entries.
  rewrite (JSFacts.assoc_last_flat_map (JS.entries_of h) _ _
             (JSFacts.entries_of_keys h)).
  destruct (decide (n ∈ JS.sorted_names h)) as [Hin|Hin].
  - unfold JS.entries_of.
    destruct (String.eqb_spec n "set-cookie") as [?|_]; [contradiction|].
    destruct (JS.get h n) as [v|]; [|reflexivity].
    unfold JS.assoc_last. cbn. now rewrite String.eqb_refl.
  - unfold JS.get. now rewrite (JSFacts.values_absent h n Hn Hin).
Qed.

Lemma guarded_covers_set_cookie (name : string) :
  JS.browser_guarded_name name = false ->
  JS.toLowerCase name <> "set-cookie".
Proof.
  intros H E. unfold JS.browser_guarded_name in H. rewrite E in H.
  discriminate H.
Qed.

(** The headers built by the upload route, under every name a browser
    would also let through: the request's own value, normalized once more,
    and under X-Job-Id the generated id, after the request's own X-Job-Id
    value if it has one. *)
Lemma rebuilt_headers (h : JS.Headers) (jobId name : string) :
  JS.browser_guarded_name name = false ->
  JS.get
    (JS.headers_of_obj
       (JS.obj_set (JS.fromEntries (JS.entries h)) "X-Job-Id" jobId)) name
  = if JS.same_name name "X-Job-Id"
    then Some (match JS.get h name with
               | Some v => JS.normalize v +:+ ", " +:+ JS.normalize jobId
               | None => JS.normalize jobId
               end)
    else JS.normalize <$> JS.get h name.
Proof.
  intros Hguard.
  pose proof (guarded_covers_set_cookie name Hguard) as Hplain.
  destruct (JSFacts.fromEntries_spec (JS.entries h)) as [Hnd [Hkeys Hget]].
  assert (Hlow : Forall (fun kv => JS.toLowerCase (fst kv) = fst kv)
                   (JS.fromEntries (JS.entries h))).
  { apply Forall_forall. intros kv Hkv.
    assert (Hk : fst kv ∈ map fst (JS.entries h)).
    { apply Hkeys. apply list_elem_of_fmap. now exists kv. }
    apply list_elem_of_fmap in Hk as [kv' [-> Hkv']].
    pose proof (JSFacts.entries_keys_lower h) as Hall.
    rewrite Forall_forall in Hall. now apply Hall. }
  assert (Habsent : "X-Job-Id" ∉ map fst (JS.fromEntries (JS.entries h))).
  { intros Hin. apply list_elem_of_fmap in Hin as [kv [Hk Hkv]].
    rewrite Forall_forall in Hlow. specialize (Hlow kv Hkv).
    rewrite <- Hk in Hlow. discriminate Hlow. }
  rewrite (JSFacts.obj_set_absent _ _ _ Habsent), JSFacts.headers_of_obj_map.
  unfold JS.get at 1.
  rewrite JSFacts.values_normalized, JSFacts.values_app.
  rewrite (JSFacts.values_obj _ name Hlow Hnd), Hget.
  rewrite (entries_assoc_last_plain h _ (JSFacts.toLowerCase_idem name) Hplain).
  rewrite JSFacts.get_lower, JSFacts.values_cons.
  cbn [JS.values List.filter map].
  assert (Hsym : JS.same_name "X-Job-Id" name = JS.same_name name "X-Job-Id").
  { unfold JS.same_name. apply String.eqb_sym. }
  rewrite Hsym. destruct (JS.same_name name "X-Job-Id").
  - destruct (JS.get h name) as [v|]; reflexivity.
  - destruct (JS.get h name) as [v|]; reflexivity.
Qed.

Section Extras.

Context {Container : Type}.
Context (getContainer : option string -> Container).
Context (URL_pathname : string -> string).
Context (w : World Container).

Local Abbreviation handler := (fetch getContainer URL_pathname w).

(** ** Requests outside the routes *)

(** A request whose path is not /health and whose method and path match
    none of POST /upload, GET /status/..., GET /download/... is answered
    404 with the list of endpoints, without any effect on the outside. *)
Theorem unrouted_is_404 (request : Request) (s : St Container) :
  URL_pathname (url request) <> "/health" ->
  (method request = "POST" -> URL_pathname (url request) <> "/upload") ->
  (method request = "GET" ->
   JS.startsWith (URL_pathname (url request)) "/status/" = false /\
   JS.startsWith (URL_pathname (url request)) "/download/" = false) ->
  handler request s
  = (Ok (mkResponse 404 [("Content-Type", "application/json")]
           ("{" +:+ JS.quoted "error" +:+ ":" +:+ JS.quoted "Not found"
            +:+ "," +:+ JS.quoted "available_endpoints" +:+ ":["
            +:+ JS.quoted "POST /upload" +:+ ","
            +:+ JS.quoted "GET /status/{job_id}" +:+ ","
            +:+ JS.quoted "GET /download/{job_id}" +:+ "]}")),
     s).
Proof.
  intros Hh Hpost Hget.
  rewrite WorkerFacts.fetch_other; [reflexivity | exact Hh | | |].
  - unfold is_upload.
    destruct (String.eqb_spec (method request) "POST") as [Hm|Hm].
    + apply Hpost in Hm. apply String.eqb_neq in Hm. rewrite Hm.
      now rewrite andb_false_r.
    + now rewrite andb_false_r.
  - unfold is_status.
    destruct (String.eqb_spec (method request) "GET") as [Hm|Hm].
    + apply Hget in Hm as [Hs _]. rewrite Hs. now rewrite andb_false_r.
    + now rewrite andb_false_r.
  - unfold is_download.
    destruct (String.eqb_spec (method request) "GET") as [Hm|Hm].
    + apply Hget in Hm as [_ Hd]. rewrite Hd. now rewrite andb_false_r.
    + now rewrite andb_false_r.
Qed.

(** ** The status and download routes *)

(** The status route: a response of the container that arrives before
    5 s is returned unchanged; when nothing has arrived by 5 s, and when the
    forwarding is rejected, the answer is 500 "Failed to check status" with
    [String(error)] as details; any answer that is not 500 is the
    container's own response. *)
Theorem status_route_policy (request : Request) (s : St Container) :
  is_status URL_pathname request = true ->
  let fate := containerFetch w (fetch_calls s) in
  (forall t r,
     fate = Resolves t r -> (t < 5000)%Z ->
     fst (handler request s) = Ok r) /\
  (settles_after 5000 fate ->
   fst (handler request s)
   = Ok (mkResponse 500 [("Content-Type", "application/json")]
           ("{" +:+ JS.quoted "error" +:+ ":"
            +:+ JS.quoted "Failed to check status" +:+ ","
            +:+ JS.quoted "details" +:+ ":"
            +:+ JS.quoted "Error: Status check timeout" +:+ "}"))) /\
  (forall t e,
     fate = Rejects t e -> (t < 5000)%Z ->
     fst (handler request s)
     = Ok (json_response 500
             (JS.JObject
                [("error", JS.JString "Failed to check status");
                 ("details", JS.JString (String_of e))]))) /\
  (forall response,
     fst (handler request s) = Ok response ->
     (exists t, fate = Resolves t response /\ (t <= 5000)%Z) \/
     status response = 500%Z).
Proof.
  intros Hs fate. subst fate.
  rewrite WorkerFacts.fetch_status by exact Hs. cbv zeta.
  split; [|split; [|split]].
  - intros t r -> Ht. cbn [race].
    now rewrite (WorkerFacts.race_settled_first _ _ _ "" Ht).
  - intros Hlate.
    now rewrite (WorkerFacts.race_timer_first _ _ _ "Status check timeout"
                   Hlate).
  - intros t e -> Ht. cbn [race].
    now rewrite (WorkerFacts.race_settled_first _ _ _ "" Ht).
  - intros response.
    destruct (race _ _ _ _) as [r|e] eqn:Hrace; cbn [fst]; intros H;
      injection H as <-.
    + left. now apply WorkerFacts.race_ok_inv in Hrace.
    + now right.
Qed.

(** The download route: the same with a timer of 30 s and the error text
    "Failed to download video". *)
Theorem download_route_policy (request : Request) (s : St Container) :
  is_download URL_pathname request = true ->
  let fate := containerFetch w (fetch_calls s) in
  (forall t r,
     fate = Resolves t r -> (t < 30000)%Z ->
     fst (handler request s) = Ok r) /\
  (settles_after 30000 fate ->
   fst (handler request s)
   = Ok (mkResponse 500 [("Content-Type", "application/json")]
           ("{" +:+ JS.quoted "error" +:+ ":"
            +:+ JS.quoted "Failed to download video" +:+ ","
            +:+ JS.quoted "details" +:+ ":"
            +:+ JS.quoted "Error: Download timeout" +:+ "}"))) /\
  (forall t e,
     fate = Rejects t e -> (t < 30000)%Z ->
     fst (handler request s)
     = Ok (json_response 500
             (JS.JObject
                [("error", JS.JString "Failed to download video");
                 ("details", JS.JString (String_of e))]))) /\
  (forall response,
     fst (handler request s) = Ok response ->
     (exists t, fate = Resolves t response /\ (t <= 30000)%Z) \/
     status response = 500%Z).
Proof.
  intros Hd fate. subst fate.
  rewrite WorkerFacts.fetch_download by exact Hd. cbv zeta.
  split; [|split; [|split]].
  - intros t r -> Ht. cbn [race].
    now rewrite (WorkerFacts.race_settled_first _ _ _ "" Ht).
  - intros Hlate.
    now rewrite (WorkerFacts.race_timer_first _ _ _ "Download timeout"
                   Hlate).
  - intros t e -> Ht. cbn [race].
    now rewrite (WorkerFacts.race_settled_first _ _ _ "" Ht).
  - intros response.
    destruct (race _ _ _ _) as [r|e] eqn:Hrace; cbn [fst]; intros H;
      injection H as <-.
    + left. now apply WorkerFacts.race_ok_inv in Hrace.
    + now right.
Qed.

(** ** Every invocation *)

(** The handler always ends with a response, never with a thrown error,
    after at most one container call and one id drawn, and without any
    random pick. *)
Theorem one_call_per_invocation (request : Request) (s : St Container) :
  exists response,
    fst (handler request s) = Ok response /\
    (fetch_calls s <= fetch_calls (snd (handler request s))
     <= S (fetch_calls s))%nat /\
    (uuid_calls s <= uuid_calls (snd (handler request s))
     <= S (uuid_calls s))%nat /\
    random_calls (snd (handler request s)) = random_calls s.
Proof.
  destruct (String.eqb_spec (URL_pathname (url request)) "/health") as [Hh|Hh].
  { rewrite WorkerFacts.fetch_health by exact Hh. eexists. cbn. 
    split; [reflexivity|]. lia. }
  destruct (is_upload URL_pathname request) eqn:Hu.
  { rewrite WorkerFacts.fetch_upload by exact Hu. cbv zeta.
    destruct (race _ _ _ _); eexists; cbn; (split; [reflexivity|]); lia. }
  destruct (is_status URL_pathname request) eqn:Hs.
  { rewrite WorkerFacts.fetch_status by exact Hs. cbv zeta.
    destruct (race _ _ _ _); eexists; cbn; (split; [reflexivity|]); lia. }
  destruct (is_download URL_pathname request) eqn:Hd.
  { rewrite WorkerFacts.fetch_download by exact Hd. cbv zeta.
    destruct (race _ _ _ _); eexists; cbn; (split; [reflexivity|]); lia. }
  rewrite WorkerFacts.fetch_other by assumption. eexists. cbn.
  split; [reflexivity|]. lia.
Qed.

(** On the status and download routes the name given to getContainer is
    always a string, never [undefined]; for the bare paths /status/ and
    /download/ it is the empty string. *)
Theorem routed_name_is_defined (request : Request) (s : St Container) :
  is_status URL_pathname request = true
  \/ is_download URL_pathname request = true ->
  (exists jobId limit,
     trace (snd (handler request (forget_trace s)))
     = [EvGetContainer (Some jobId);
        EvFetch (getContainer (Some jobId)) request limit]) /\
  (URL_pathname (url request) = "/status/"
   \/ URL_pathname (url request) = "/download/" ->
   exists limit,
     trace (snd (handler request (forget_trace s)))
     = [EvGetContainer (Some EmptyString);
        EvFetch (getContainer (Some EmptyString)) request limit]).
Proof.
  intros Hroute.
  destruct (is_status URL_pathname request) eqn:Hs.
  - rewrite WorkerFacts.fetch_status by exact Hs. cbv zeta.
    assert (Hp : JS.startsWith (URL_pathname (url request)) "/status/" = true).
    { unfold is_status in Hs. apply andb_true_iff in Hs as [Hs _].
      now apply andb_true_iff in Hs as [_ Hs]. }
    split.
    + destruct (path_segment_defined _ _ _ Hp) as [jobId ->].
      exists jobId, 5000%Z. destruct (race _ _ _ _); reflexivity.
    + intros [Hb|Hb]; rewrite Hb in *; [|discriminate Hp].
      exists 5000%Z. destruct (race _ _ _ _); reflexivity.
  - destruct Hroute as [Hd|Hd]; [discriminate|].
    rewrite WorkerFacts.fetch_download by exact Hd. cbv zeta.
    assert (Hp : JS.startsWith (URL_pathname (url request)) "/download/"
                 = true).
    { unfold is_download in Hd. apply andb_true_iff in Hd as [Hd _].
      now apply andb_true_iff in Hd as [_ Hd]. }
    split.
    + destruct (path_segment_defined _ _ _ Hp) as [jobId ->].
      exists jobId, 30000%Z. destruct (race _ _ _ _); reflexivity.
    + intros [Hb|Hb]; rewrite Hb in *; [discriminate Hp|].
      exists 30000%Z. destruct (race _ _ _ _); reflexivity.
Qed.

(** ** What the upload route forwards *)


(** ** The health-check helper *)

Lemma waited_app (a b : list (Event Container)) :
  waited (a ++ b) = (waited a + waited b)%Z.
Proof.
  induction a as [|ev a IH]; cbn [app waited fold_right]; [reflexivity|].
  fold (waited (a ++ b)). fold (waited a). rewrite IH. lia.
Qed.

(** Whatever the containers do, the timers of the probes and the pauses
    of one call add up to at most 2 s per attempt and 1 s between two
    attempts, and the call makes at most [maxRetries] picks and probes. *)
Lemma getHealthyContainer_loop_wait (maxRetries : nat) :
  forall (remaining : nat) (s : St Container),
    (remaining <= maxRetries)%nat ->
    let rs := getHealthyContainer_loop w maxRetries remaining s in
    (waited (trace (snd rs))
     <= waited (trace s) + 2000 * Z.of_nat remaining
        + 1000 * Z.of_nat (remaining - 1))%Z /\
    (fetch_calls (snd rs) <= fetch_calls s + remaining)%nat /\
    (random_calls (snd rs) <= random_calls s + remaining)%nat.
Proof.
  induction remaining as [|remaining IH]; intros s Hle; cbv zeta.
  - cbn. lia.
  - assert (Hle' : (remaining <= maxRetries)%nat) by lia.
    rewrite WorkerFacts.getHealthyContainer_step. cbv zeta.
    destruct (getRandom w (random_calls s)) as [container|e].
    + destruct (race _ _ _ _) as [healthCheck|e].
      * destruct (ok healthCheck).
        -- cbn [snd trace fetch_calls random_calls].
           rewrite waited_app. cbn. lia.
        -- match goal with
           | |- context [getHealthyContainer_loop w maxRetries remaining ?st] =>
               pose proof (IH st Hle') as H
           end.
           cbv zeta in H. cbn [trace fetch_calls random_calls] in H.
           rewrite waited_app in H. cbn in H. lia.
      * rewrite WorkerFacts.paused_cases by exact Hle.
        match goal with
        | |- context [getHealthyContainer_loop w maxRetries remaining ?st] =>
            pose proof (IH st Hle') as H
        end.
        cbv zeta in H.
        destruct (0 <? remaining)%nat eqn:Hr;
          cbn [emit trace fetch_calls random_calls] in H;
          rewrite ?waited_app in H; cbn in H;
          [apply Nat.ltb_lt in Hr | apply Nat.ltb_ge in Hr]; lia.
    + rewrite WorkerFacts.paused_cases by exact Hle.
      match goal with
      | |- context [getHealthyContainer_loop w maxRetries remaining ?st] =>
          pose proof (IH st Hle') as H
      end.
      cbv zeta in H.
      destruct (0 <? remaining)%nat eqn:Hr;
        cbn [emit trace fetch_calls random_calls] in H;
        rewrite ?waited_app in H; cbn in H;
        [apply Nat.ltb_lt in Hr | apply Nat.ltb_ge in Hr]; lia.
Qed.

(** getHealthyContainer gives up or returns within bounded waiting: with
    [maxRetries] attempts, at most [maxRetries] picks and probes, and timers
    and pauses of at most 2 s per attempt plus 1 s between attempts (8 s for
    the default of 3). *)
Theorem health_check_wait_bound (maxRetries : nat) (s : St Container) :
  let rs := getHealthyContainer w maxRetries s in
  (waited (trace (snd rs))
   <= waited (trace s) + 2000 * Z.of_nat maxRetries
      + 1000 * Z.of_nat (maxRetries - 1))%Z /\
  (fetch_calls (snd rs) <= fetch_calls s + maxRetries)%nat /\
  (random_calls (snd rs) <= random_calls s + maxRetries)%nat.
Proof.
  unfold getHealthyContainer. apply getHealthyContainer_loop_wait. lia.
Qed.

Lemma sleeps_snoc2 (tr : list (Event Container)) (c : Container) :
  sleeps (tr ++ [EvGetRandom; EvFetch c health_request 2000]) = sleeps tr.
Proof. rewrite WorkerFacts.sleeps_app. cbn. lia. Qed.

(** A container that answers the probe in time with a status that is not
    ok is not waited for: the loop goes on to the next attempt at once. *)
Lemma getHealthyContainer_loop_unhealthy (maxRetries : nat) :
  (forall n, exists c, getRandom w n = Ok c) ->
  (forall n, exists t r,
     containerFetch w n = Resolves t r /\ (t < 2000)%Z /\ ok r = false) ->
  forall (remaining : nat) (s : St Container),
    let rs := getHealthyContainer_loop w maxRetries remaining s in
    fst rs = Throw (newError "No healthy container available") /\
    fetch_calls (snd rs) = (fetch_calls s + remaining)%nat /\
    random_calls (snd rs) = (random_calls s + remaining)%nat /\
    sleeps (trace (snd rs)) = sleeps (trace s) /\
    waited (trace (snd rs))
    = (waited (trace s) + 2000 * Z.of_nat remaining)%Z.
Proof.
  intros Hpick Hprobe.
  induction remaining as [|remaining IH]; intros s; cbv zeta.
  - cbn. repeat split; lia.
  - rewrite WorkerFacts.getHealthyContainer_step. cbv zeta.
    destruct (Hpick (random_calls s)) as [c ->].
    destruct (Hprobe (fetch_calls s)) as [t [r [-> [Ht Hok]]]].
    cbn [race]. rewrite (WorkerFacts.race_settled_first _ _ _ "" Ht), Hok.
    match goal with
    | |- context [getHealthyContainer_loop w maxRetries remaining ?st] =>
        pose proof (IH st) as H
    end.
    cbv zeta in H. cbn [trace fetch_calls random_calls] in H.
    destruct H as [H1 [H2 [H3 [H4 H5]]]].
    rewrite sleeps_snoc2 in H4. rewrite waited_app in H5. cbn in H5.
    repeat split; [exact H1 | lia | lia | exact H4 | lia].
Qed.

(** When every pick succeeds and every probe is answered within 2 s with a
    status that is not ok, getHealthyContainer makes [maxRetries] picks and
    probes one after the other without a single pause, and throws. *)
Theorem unhealthy_answers_are_not_paused (maxRetries : nat)
    (s : St Container) :
  (forall n, exists c, getRandom w n = Ok c) ->
  (forall n, exists t r,
     containerFetch w n = Resolves t r /\ (t < 2000)%Z /\ ok r = false) ->
  let rs := getHealthyContainer w maxRetries s in
  fst rs = Throw (newError "No healthy container available") /\
  fetch_calls (snd rs) = (fetch_calls s + maxRetries)%nat /\
  random_calls (snd rs) = (random_calls s + maxRetries)%nat /\
  sleeps (trace (snd rs)) = sleeps (trace s) /\
  waited (trace (snd rs))
  = (waited (trace s) + 2000 * Z.of_nat maxRetries)%Z.
Proof.
  intros Hpick Hprobe. unfold getHealthyContainer.
  now apply getHealthyContainer_loop_unhealthy.
Qed.

Lemma getHealthyContainer_loop_silent (maxRetries : nat) :
  (forall n, exists c, getRandom w n = Ok c) ->
  (forall n, settles_after 2000 (containerFetch w n)) ->
  forall (remaining : nat) (s : St Container),
    (remaining <= maxRetries)%nat ->
    let rs := getHealthyContainer_loop w maxRetries remaining s in
    fst rs = Throw (newError "No healthy container available") /\
    fetch_calls (snd rs) = (fetch_calls s + remaining)%nat /\
    sleeps (trace (snd rs)) = (sleeps (trace s) + (remaining - 1))%nat /\
    waited (trace (snd rs))
    = (waited (trace s) + 2000 * Z.of_nat remaining
       + 1000 * Z.of_nat (remaining - 1))%Z.
Proof.
  intros Hpick Hsilent.
  induction remaining as [|remaining IH]; intros s Hle; cbv zeta.
  - cbn. repeat split; lia.
  - assert (Hle' : (remaining <= maxRetries)%nat) by lia.
    rewrite WorkerFacts.getHealthyContainer_step. cbv zeta.
    destruct (Hpick (random_calls s)) as [c ->].
    rewrite (WorkerFacts.race_timer_first _ _ _ "Health check timeout"
               (Hsilent (fetch_calls s))).
    rewrite WorkerFacts.paused_cases by exact Hle.
    match goal with
    | |- context [getHealthyContainer_loop w maxRetries remaining ?st] =>
        pose proof (IH st Hle') as H
    end.
    cbv zeta in H.
    destruct (0 <? remaining)%nat eqn:Hr;
      cbn [emit trace fetch_calls random_calls] in H;
      destruct H as [H1 [H2 [H3 H4]]];
      rewrite ?WorkerFacts.sleeps_app, ?sleeps_snoc2 in H3;
      rewrite ?waited_app in H4; cbn in H3, H4;
      [apply Nat.ltb_lt in Hr | apply Nat.ltb_ge in Hr];
      (repeat split; [exact H1 | lia | lia | lia]).
Qed.

(** When every pick succeeds and no probe is answered within 2 s,
    getHealthyContainer pauses 1 s after every attempt but the last and
    throws after [maxRetries] probes: the bound on its waiting is reached. *)
Theorem silent_containers_exhaust_the_wait (maxRetries : nat)
    (s : St Container) :
  (forall n, exists c, getRandom w n = Ok c) ->
  (forall n, settles_after 2000 (containerFetch w n)) ->
  let rs := getHealthyContainer w maxRetries s in
  fst rs = Throw (newError "No healthy container available") /\
  fetch_calls (snd rs) = (fetch_calls s + maxRetries)%nat /\
  sleeps (trace (snd rs)) = (sleeps (trace s) + (maxRetries - 1))%nat /\
  waited (trace (snd rs))
  = (waited (trace s) + 2000 * Z.of_nat maxRetries
     + 1000 * Z.of_nat (maxRetries - 1))%Z.
Proof.
  intros Hpick Hsilent. unfold getHealthyContainer.
  apply getHealthyContainer_loop_silent; [assumption..|lia].
Qed.

(** ** Affinity over a run *)

(** In a run of the worker, a later or earlier status or download request
    whose path carries the id an upload of the run generated is sent to the
    very stub that upload was sent to. *)
Theorem run_affinity (requests : list Request) (s : St Container)
    (i j : nat) (upload check : Request) (jobId : string)
    ri tri rj trj :
  requests !! i = Some upload ->
  is_upload URL_pathname upload = true ->
  serve getContainer URL_pathname w requests s !! i = Some (ri, tri) ->
  generated_job_id tri = Some jobId ->
  requests !! j = Some check ->
  method check = "GET" ->
  (URL_pathname (url check) = "/status/" +:+ jobId /\
   JS.includes jobId "/status/" = false) \/
  (URL_pathname (url check) = "/download/" +:+ jobId /\
   JS.includes jobId "/download/" = false) ->
  serve getContainer URL_pathname w requests s !! j = Some (rj, trj) ->
  routed_to tri = Some (getContainer (Some jobId)) /\
  routed_to trj = Some (getContainer (Some jobId)).
Proof.
  intros Hi Hu Hsi Hg Hj Hm Hpath Hsj.
  apply WorkerFacts.serve_invocation in Hsi
    as [upload' [si [Hi' [_ [_ ->]]]]].
  rewrite Hi in Hi'. injection Hi' as <-.
  apply WorkerFacts.serve_invocation in Hsj
    as [check' [sj [Hj' [_ [_ ->]]]]].
  rewrite Hj in Hj'. injection Hj' as <-.
  split.
  - revert Hg. rewrite WorkerFacts.fetch_upload by exact Hu. cbv zeta.
    destruct (race _ _ _ _); cbn; intros Hg; injection Hg as ->;
      reflexivity.
  - destruct Hpath as [[Hp Hfree]|[Hp Hfree]].
    + rewrite WorkerFacts.fetch_status
        by eauto using WorkerFacts.status_path_is_status.
      cbv zeta. rewrite Hp. unfold path_segment.
      rewrite (JSFacts.split_prefixed _ _ _ Hfree). cbn [lookup list_lookup].
      destruct (race _ _ _ _); reflexivity.
    + rewrite WorkerFacts.fetch_download
        by eauto using WorkerFacts.download_path_is_download.
      cbv zeta. rewrite Hp. unfold path_segment.
      rewrite (JSFacts.split_prefixed _ _ _ Hfree). cbn [lookup list_lookup].
      destruct (race _ _ _ _); reflexivity.
Qed.

End Extras.

(** ** Evaluation on concrete worlds *)

(** A request that carries [Accept: a] and an empty [Accept]: the
    iteration combines them into one value that ends in a comma and a
    space, and the rebuilt headers hold it without the space. *)
Example combined_value_is_normalized :
  JS.get (headers (mkRequest "https://w.dev/upload" "POST"
                     [("Accept", "a"); ("Accept", EmptyString)] "bytes"))
    "accept" = Some "a, " /\
  JS.get (headers (clonedRequest
                     (mkRequest "https://w.dev/upload" "POST"
                        [("Accept", "a"); ("Accept", EmptyString)] "bytes")
                     "0b5e1c1e-0000-4000-8000-000000000001"))
    "accept" = Some "a,".
Proof. split; reflexivity. Qed.

Lemma unrouted_is_404_witness :
  fst (fetch demo_getContainer demo_pathname prompt_world
         (mkRequest "https://w.dev/upload" "PUT" [] EmptyString) initial)
  = Ok not_found_response.
Proof.
  rewrite (unrouted_is_404 demo_getContainer demo_pathname prompt_world
             (mkRequest "https://w.dev/upload" "PUT" [] EmptyString) initial).
  - reflexivity.
  - intros E. vm_compute in E. discriminate E.
  - intros E. discriminate E.
  - intros E. discriminate E.
Defined.

Lemma status_route_policy_witness :
  exists response,
    fst (fetch demo_getContainer demo_pathname silent_world demo_status
           initial) = Ok response /\
    status response = 500%Z.
Proof.
  eexists. split.
  - exact (proj1 (proj2 (status_route_policy demo_getContainer
                           demo_pathname silent_world demo_status initial
                           eq_refl)) I).
  - reflexivity.
Defined.

Lemma download_route_policy_witness :
  exists response,
    fst (fetch demo_getContainer demo_pathname silent_world demo_download
           initial) = Ok response /\
    status response = 500%Z.
Proof.
  eexists. split.
  - exact (proj1 (proj2 (download_route_policy demo_getContainer
                           demo_pathname silent_world demo_download initial
                           eq_refl)) I).
  - reflexivity.
Defined.

Lemma routed_name_is_defined_witness :
  exists limit,
    trace (snd (fetch demo_getContainer demo_pathname prompt_world
                  (mkRequest "https://w.dev/status/" "GET" [] EmptyString)
                  (forget_trace initial)))
    = [EvGetContainer (Some EmptyString);
       EvFetch (demo_getContainer (Some EmptyString))
         (mkRequest "https://w.dev/status/" "GET" [] EmptyString) limit].
Proof.
  exact (proj2 (routed_name_is_defined demo_getContainer demo_pathname
                  prompt_world
                  (mkRequest "https://w.dev/status/" "GET" [] EmptyString)
                  initial (or_introl eq_refl))
           (or_introl eq_refl)).
Defined.


Lemma unhealthy_answers_are_not_paused_witness :
  fst (getHealthyContainer unknown_job_world 3 initial)
  = Throw (newError "No healthy container available") /\
  sleeps (trace (snd (getHealthyContainer unknown_job_world 3 initial)))
  = 0%nat.
Proof.
  destruct (unhealthy_answers_are_not_paused unknown_job_world 3 initial
              (fun n => ex_intro _ _ eq_refl)
              (fun n => ex_intro _ 120%Z
                          (ex_intro _ not_found_404
                             (conj eq_refl (conj eq_refl eq_refl)))))
    as [H1 [_ [_ [H4 _]]]].
  split; [exact H1 | exact H4].
Defined.

Lemma silent_containers_exhaust_the_wait_witness :
  sleeps (trace (snd (getHealthyContainer silent_world 3 initial))) = 2%nat /\
  waited (trace (snd (getHealthyContainer silent_world 3 initial))) = 8000%Z.
Proof.
  destruct (silent_containers_exhaust_the_wait silent_world 3 initial
              (fun n => ex_intro _ _ eq_refl) (fun n => I))
    as [_ [_ [H3 H4]]].
  split; [exact H3 | exact H4].
Defined.

Lemma run_affinity_witness :
  routed_to
    (trace (snd (fetch demo_getContainer demo_pathname prompt_world
                   demo_upload (forget_trace initial))))
  = Some "0b5e1c1e-0000-4000-8000-000000000001" /\
  routed_to
    (trace (snd (fetch demo_getContainer demo_pathname prompt_world
                   demo_status (forget_trace initial))))
  = Some "0b5e1c1e-0000-4000-8000-000000000001".
Proof.
  exact (run_affinity demo_getContainer demo_pathname prompt_world
           [demo_upload; demo_status] initial 0 1 demo_upload demo_status
           "0b5e1c1e-0000-4000-8000-000000000001" _ _ _ _
           eq_refl eq_refl eq_refl eq_refl eq_refl eq_refl
           (or_introl (conj eq_refl eq_refl)) eq_refl).
Defined.

End WorkerExtras.
